(** * Duffle: export pipeline, bundle loading front end, digester and
      example driver — a shallow embedding and its verified properties.

    Sources embedded here:
    - [pkg/packager/export.go]      (module [Packager])
    - [pkg/imagebuilder/docker/digester/digester.go] (module [Digester])
    - the [pull]/[loadBundle] command file of [cmd/duffle] (module [Cmd])
    - the example driver shell script (module [Driver])

    The operating system, the Docker client, the archive library and the
    signature package are collaborators; they are modelled below by a small
    file system over [gmap], by records of functions and by section
    variables. *)

From Stdlib Require Import Ascii String.
From stdpp Require Import gmap strings list fin_maps.

Local Open Scope string_scope.
Local Open Scope nat_scope.
Local Open Scope list_scope.
Local Open Scope stdpp_scope.

(** ** Go strings *)

Module GoStrings.

(** [strings.Replace(s, old, new, -1)] where [old] is a one-byte string:
    every occurrence of the byte is replaced.  Both call sites of
    [buildFileName] pass a one-byte pattern. *)
Fixpoint ReplaceAll (s : string) (old : ascii) (new : string) : string :=
  match s with
  | EmptyString => EmptyString
  | String c s' =>
      if Ascii.eqb c old then new +:+ ReplaceAll s' old new
      else String c (ReplaceAll s' old new)
  end.

(** [strings.Split(s, sep)] for a one-byte separator. *)
Fixpoint Split (s : string) (sep : ascii) : list string :=
  match s with
  | EmptyString => [EmptyString]
  | String c s' =>
      if Ascii.eqb c sep then EmptyString :: Split s' sep
      else match Split s' sep with
           | [] => [String c EmptyString]
           | w :: ws => String c w :: ws
           end
  end.

(** Does byte [c] occur in [s]? ([strings.IndexByte(s, c) >= 0]) *)
Fixpoint ContainsByte (s : string) (c : ascii) : bool :=
  match s with
  | EmptyString => false
  | String d s' => Ascii.eqb d c || ContainsByte s' c
  end.

(** The bytes of a string, one by one. *)
Fixpoint bytes (s : string) : list ascii :=
  match s with
  | EmptyString => []
  | String c s' => c :: bytes s'
  end.

Fixpoint of_bytes (l : list ascii) : string :=
  match l with
  | [] => EmptyString
  | c :: l' => String c (of_bytes l')
  end.

Fixpoint drop_bytes (n : nat) (s : string) : string :=
  match n, s with
  | O, _ => s
  | S n', EmptyString => EmptyString
  | S n', String _ s' => drop_bytes n' s'
  end.

Fixpoint take_bytes (n : nat) (s : string) : string :=
  match n, s with
  | O, _ => EmptyString
  | S n', EmptyString => EmptyString
  | S n', String c s' => String c (take_bytes n' s')
  end.

Fixpoint zeros (n : nat) : string :=
  match n with
  | O => EmptyString
  | S n' => String "000"%char (zeros n')
  end.

End GoStrings.

(** ** Go errors *)

Inductive errno := ENOENT | ENOTDIR | EISDIR.

Definition errno_text (e : errno) : string :=
  match e with
  | ENOENT => "no such file or directory"
  | ENOTDIR => "not a directory"
  | EISDIR => "is a directory"
  end.

(** A Go [error] value.  [ErrNotSigned] is the package-level variable of
    the command package; a value made by [errors.New] or [fmt.Errorf] at run
    time is a new one, never identical to a package-level variable;
    [PathError] is what the [os] package returns. *)
Inductive error :=
| ErrNotSigned
| Errorf (msg : string)
| PathError (op : string) (name : string) (e : errno).

(** The [Error()] method. *)
Definition Error (e : error) : string :=
  match e with
  | ErrNotSigned => "bundle is not signed"
  | Errorf msg => msg
  | PathError op name e => op +:+ " " +:+ name +:+ ": " +:+ errno_text e
  end.

(** [os.IsNotExist(err)] on a non-nil error. *)
Definition IsNotExist (e : error) : bool :=
  match e with
  | PathError _ _ ENOENT => true
  | _ => false
  end.

(** How a Go call ends: it returns a value, returns a non-nil error, or
    panics. *)
Inductive result (A : Type) :=
| Ret (a : A)
| Fail (e : error)
| Panic (msg : string).
Arguments Ret {A} a.
Arguments Fail {A} e.
Arguments Panic {A} msg.

(** ** Paths and the file system *)

Module FS.
Import GoStrings.

(** A resolved absolute path: its components from the root. *)
Abbreviation path := (list string).

Inductive node :=
| Dir
| File (data : string).

(** One step of path resolution ([filepath.Clean] on an absolute path). *)
Definition step (acc : path) (c : string) : path :=
  if decide (c = "" ∨ c = ".") then acc
  else if decide (c = "..") then removelast acc
  else acc ++ [c].

Definition resolve (base : path) (comps : list string) : path :=
  foldl step base comps.

Definition is_abs (p : string) : bool :=
  match p with
  | String "/"%char _ => true
  | _ => false
  end.

(** [filepath.Abs(p)] with working directory [cwd]: the path is joined to
    the working directory and cleaned, by its text alone (the file system is
    not looked at). *)
Definition Abs (cwd : path) (p : string) : path :=
  resolve (if is_abs p then [] else cwd) (Split p "/").

(** [filepath.Join(dir, name)] for an absolute clean [dir]. *)
Definition Join (dir : path) (name : string) : path :=
  resolve dir (Split name "/").

(** The root always exists and is a directory. *)
Definition lookup_node (fs : gmap path node) (p : path) : option node :=
  match p with
  | [] => Some Dir
  | _ => fs !! p
  end.

(** Walk from [cur] down the components [rest]: every directory on the
    way has to exist and be a directory. *)
Fixpoint walk (fs : gmap path node) (cur : path) (rest : list string)
  : errno + node :=
  match rest with
  | [] => match lookup_node fs cur with
          | Some n => inr n
          | None => inl ENOENT
          end
  | c :: rest' =>
      match lookup_node fs cur with
      | Some Dir => walk fs (cur ++ [c]) rest'
      | Some (File _) => inl ENOTDIR
      | None => inl ENOENT
      end
  end.

(** [stat(2)] on an absolute, clean path. *)
Definition stat (fs : gmap path node) (p : path) : errno + node :=
  walk fs [] p.

(** How the kernel walks the components of a path string, standing on
    [cur]: to take a step, also the empty step of a doubled or trailing [/]
    and the step [.], the place it stands on has to be a directory.  The
    place reached last is not looked at (that is for the call to do).
    [creating] is [O_CREAT]: a name that ends in [/] is refused with "is a
    directory" where the walk would otherwise miss a directory at its
    end. *)
Fixpoint namei_from (creating : bool) (fs : gmap path node) (cur : path)
    (comps : list string) : errno + path :=
  match comps with
  | [] => inr cur
  | c :: rest =>
      let at_end := creating && forallb (String.eqb "") (c :: rest) in
      match lookup_node fs cur with
      | Some Dir => namei_from creating fs (step cur c) rest
      | Some (File _) => inl (if at_end then EISDIR else ENOTDIR)
      | None => inl (if at_end then EISDIR else ENOENT)
      end
  end.

(** Path resolution of the string [p], as the program hands it to a system
    call, for a process with working directory [cwd]: the empty string is
    no path.  There are no symbolic links, so a walk that goes through
    ends where [filepath.Abs] says. *)
Definition namei (creating : bool) (fs : gmap path node) (cwd : path)
    (p : string) : errno + path :=
  if String.eqb p "" then inl ENOENT
  else namei_from creating fs (if is_abs p then [] else cwd) (Split p "/").

(** [stat(2)] on a path string. *)
Definition stat_name (fs : gmap path node) (cwd : path) (p : string)
  : errno + node :=
  match namei false fs cwd p with
  | inl e => inl e
  | inr q => stat fs q
  end.

(** [open(2)] with [O_CREATE]: the parent must be a directory, the target
    must not be one; [trunc] is [O_TRUNC]. *)
Definition create (trunc : bool) (fs : gmap path node) (p : path)
  : errno + gmap path node :=
  match p with
  | [] => inl EISDIR
  | _ =>
      match stat fs (removelast p) with
      | inl e => inl e
      | inr (File _) => inl ENOTDIR
      | inr Dir =>
          match fs !! p with
          | Some Dir => inl EISDIR
          | Some (File d) => inr (if trunc then <[p := File ""]> fs else fs)
          | None => inr (<[p := File ""]> fs)
          end
      end
  end.

(** [os.MkdirAll]: make [cur] and then each longer prefix a directory. *)
Fixpoint mkdir_from (fs : gmap path node) (cur : path) (rest : list string)
  : errno + gmap path node :=
  match lookup_node fs cur with
  | Some (File _) => inl ENOTDIR
  | o =>
      let fs' := match o with None => <[cur := Dir]> fs | _ => fs end in
      match rest with
      | [] => inr fs'
      | c :: rest' => mkdir_from fs' (cur ++ [c]) rest'
      end
  end.

Definition mkdir_all (fs : gmap path node) (p : path)
  : errno + gmap path node :=
  mkdir_from fs [] p.

(** Where [os.MkdirAll] gives up, when it does: the first place on the way
    that is a file; its error names that place. *)
Fixpoint mkdir_blocked (fs : gmap path node) (cur : path)
    (rest : list string) : path :=
  match lookup_node fs cur, rest with
  | Some (File _), _ => cur
  | _, [] => cur
  | _, c :: rest' => mkdir_blocked fs (cur ++ [c]) rest'
  end.

(** [os.RemoveAll]: the path and everything below it. *)
Definition remove_all (fs : gmap path node) (p : path) : gmap path node :=
  filter (λ kv : path * node, ¬ p `prefix_of` kv.1) fs.

(** A write of [data] at byte offset [off] into a file holding [old]. *)
Definition pwrite (old : string) (off : nat) (data : string) : string :=
  take_bytes off old +:+ zeros (off - String.length old) +:+ data
    +:+ drop_bytes (off + String.length data) old.

(** A write through an open handle on [p]; the bytes go to the file the
    handle was opened on (a handle on a path that was removed since writes
    nowhere visible). *)
Definition write_at (fs : gmap path node) (p : path) (off : nat)
    (data : string) : gmap path node :=
  match data, fs !! p with
  | String _ _, Some (File old) => <[p := File (pwrite old off data)]> fs
  | _, _ => fs
  end.

(** What a recursive walk of directory [d] finds: [d] itself and all that
    is below it, each with its path relative to [d]. *)
(** The text of a resolved path, as error messages show it. *)
Definition render (p : path) : string :=
  match p with
  | [] => "/"
  | _ => foldr (λ c acc, "/" +:+ c +:+ acc) "" p
  end.

Definition listing (fs : gmap path node) (d : path) : list (path * node) :=
  (λ kv : path * node, (drop (length d) kv.1, kv.2)) <$>
    map_to_list (filter (λ kv : path * node, d `prefix_of` kv.1) fs).

End FS.

(** ** The bundle model *)

(** Modelled from the spec: the declarations of [pkg/bundle] are not part of
    the sources at hand; the fields below are the ones the exporter reads and
    writes ([Image] identifier and [Digest] of an image, [Name], [Version],
    [Images] and [InvocationImages] of a bundle). *)
Record Image := { Image_Image : string; Image_Digest : string }.

Record InvocationImage := { Inv_Image : string; Inv_Digest : string }.

(** [Images] is a Go map: the list holds its entries, with pairwise distinct
    keys, in the order in which the [range] statement of the run at hand
    visits them (Go leaves that order open, so a property proved for every
    list holds for every order). *)
Record Bundle := {
  Name : string;
  Version : string;
  Images : list (string * Image);
  InvocationImages : list InvocationImage
}.

(** ** The world a run acts on *)

Module OS.
Import GoStrings FS.

(** A byte stream handed out by the Docker client: the bytes it delivers,
    and the error that ends the reading, if one does. *)
Record stream := { data : string; read_err : option error }.

Inductive stream_id :=
| PullLogs (ref : string)
| SavedImage (ref : string).

(** Calls to the collaborators, in the order they are made; [opened]
    tells whether the call handed out a stream. *)
Inductive event :=
| EvImagePull (ref : string) (opened : bool)
| EvImageSave (ref : string) (opened : bool)
| EvFromReader (ref : string)
| EvClose (s : stream_id)
| EvLoadKeyRing (ring : path)
| EvClearsign (b : Bundle)
| EvTar (dir : path) (members : list (path * node)).

(** The file system, the table of open files (a file descriptor is an
    index into it; an entry is the path the file was opened on and the
    current offset) and the calls made so far. *)
Record world := World {
  fs : gmap path node;
  fds : list (path * nat);
  trace : list event
}.

Definition set_fs (f : gmap path node) (w : world) : world :=
  World f (fds w) (trace w).

Definition emit (e : event) (w : world) : world :=
  World (fs w) (fds w) (trace w ++ [e]).

(** A Go function body: it acts on the world and ends in a [result]. *)
Definition M (A : Type) : Type := world → result A * world.

Definition ret {A} (a : A) : M A := λ w, (Ret a, w).

Definition fail {A} (e : error) : M A := λ w, (Fail e, w).

Definition panic {A} (msg : string) : M A := λ w, (Panic msg, w).

Definition bind {A B} (m : M A) (k : A → M B) : M B :=
  λ w, match m w with
       | (Ret a, w') => k a w'
       | (Fail e, w') => (Fail e, w')
       | (Panic msg, w') => (Panic msg, w')
       end.

(** [defer d] followed by the rest of the function body: [d] runs when the
    body ends, however it ends. *)
Definition defer {A} (d : world → world) (body : M A) : M A :=
  λ w, let '(r, w') := body w in (r, d w').

(** [if err != nil { return wrap(err) }] around a call. *)
Definition on_error {A} (wrap : error → error) (m : M A) : M A :=
  λ w, match m w with
       | (Fail e, w') => (Fail (wrap e), w')
       | rw => rw
       end.

(** A call whose returned error is dropped by the caller. *)
Definition ignore_error (m : M unit) : M unit :=
  λ w, match m w with
       | (Fail _, w') => (Ret tt, w')
       | rw => rw
       end.

(** A [for ... range] loop whose body returns from the function on an
    error and otherwise yields the element to keep. *)
Fixpoint for_range {A B} (body : A → M B) (l : list A) : M (list B) :=
  match l with
  | [] => ret []
  | x :: l' =>
      bind (body x) (λ y, bind (for_range body l') (λ ys, ret (y :: ys)))
  end.

(** *** The [os] and [io] calls the sources make *)

(** The calls [Create], [OpenFile], [Open], [MkdirAll] and [WriteFile] below
    are made on an absolute, clean path, as [filepath.Abs] and
    [filepath.Join] hand it out: the kernel walks it from the root, and an
    error names the path.  [CreateNamed], [OpenNamed] and [Stat] are made on
    a path string as the caller has it: the kernel walks the string from
    the working directory, and an error names the string as it was
    passed. *)

(** [os.Create(p)]: open for writing, create, truncate. *)
Definition Create (p : path) : M nat :=
  λ w, match create true (fs w) p with
       | inl e => (Fail (PathError "open" (render p) e), w)
       | inr f => (Ret (length (fds w)),
                   World f (fds w ++ [(p, 0)]) (trace w))
       end.

(** [os.OpenFile(p, os.O_RDWR|os.O_CREATE, 0666)]: no truncation. *)
Definition OpenFile (p : path) : M nat :=
  λ w, match create false (fs w) p with
       | inl e => (Fail (PathError "open" (render p) e), w)
       | inr f => (Ret (length (fds w)),
                   World f (fds w ++ [(p, 0)]) (trace w))
       end.

(** [os.Open(p)]: open for reading. *)
Definition Open (p : path) : M nat :=
  λ w, match stat (fs w) p with
       | inl e => (Fail (PathError "open" (render p) e), w)
       | inr _ => (Ret (length (fds w)),
                   World (fs w) (fds w ++ [(p, 0)]) (trace w))
       end.

(** The error of a call on the path string [name]: the [os] package
    reports the string. *)
Definition renamed (name : string) (err : error) : error :=
  match err with
  | PathError op _ e => PathError op name e
  | _ => err
  end.

(** [os.Create(name)] on a path string. *)
Definition CreateNamed (cwd : path) (name : string) : M nat :=
  λ w, match namei true (fs w) cwd name with
       | inl e => (Fail (PathError "open" name e), w)
       | inr p => on_error (renamed name) (Create p) w
       end.

(** [os.Open(name)] on a path string. *)
Definition OpenNamed (cwd : path) (name : string) : M nat :=
  λ w, match namei false (fs w) cwd name with
       | inl e => (Fail (PathError "open" name e), w)
       | inr p => on_error (renamed name) (Open p) w
       end.

(** [os.Stat(name)] on a path string; it returns the pair [(fi, err)], of
    which one is nil. *)
Definition Stat (cwd : path) (name : string)
  : M (option node * option error) :=
  λ w, match stat_name (fs w) cwd name with
       | inl e => (Ret (None, Some (PathError "stat" name e)), w)
       | inr n => (Ret (Some n, None), w)
       end.

(** [f.Write(bytes)] on an open file. *)
Definition Write (fd : nat) (bytes : string) : M unit :=
  λ w, match fds w !! fd with
       | Some (p, off) =>
           (Ret tt,
            World (write_at (fs w) p off bytes)
                  (<[fd := (p, off + String.length bytes)]> (fds w))
                  (trace w))
       | None => (Fail (Errorf "bad file descriptor"), w)
       end.

(** Read an open file from its offset to its end. *)
Definition ReadAll (fd : nat) : M string :=
  λ w, match fds w !! fd with
       | Some (p, off) =>
           match lookup_node (fs w) p with
           | Some (File d) =>
               (Ret (drop_bytes off d),
                World (fs w) (<[fd := (p, off `max` String.length d)]> (fds w))
                      (trace w))
           | Some Dir => (Fail (PathError "read" (render p) EISDIR), w)
           | None => (Ret "", w)
           end
       | None => (Fail (Errorf "bad file descriptor"), w)
       end.

(** [io.Copy(dst, src)] between two open files. *)
Definition Copy (dst src : nat) : M unit :=
  bind (ReadAll src) (λ d, Write dst d).

(** [io.Copy(dst, s)] from a stream of the Docker client: what was read
    is written, and a read error is the error of the copy. *)
Definition CopyFrom (dst : nat) (s : stream) : M unit :=
  bind (Write dst (data s))
       (λ _, match read_err s with
             | Some e => fail e
             | None => ret tt
             end).

(** [os.MkdirAll(p, 0755)]. *)
Definition MkdirAll (p : path) : M unit :=
  λ w, match mkdir_all (fs w) p with
       | inl e =>
           (Fail (PathError "mkdir" (render (mkdir_blocked (fs w) [] p)) e),
            w)
       | inr f => (Ret tt, set_fs f w)
       end.

(** [os.RemoveAll(p)], as the deferred call it is in the sources (its
    returned error is dropped there). *)
Definition RemoveAll (p : path) : world → world :=
  λ w, set_fs (remove_all (fs w) p) w.

(** [ioutil.WriteFile(p, bytes, 0644)]. *)
Definition WriteFile (p : path) (bytes : string) : M unit :=
  λ w, match create true (fs w) p with
       | inl e => (Fail (PathError "open" (render p) e), w)
       | inr f => (Ret tt, set_fs (<[p := File bytes]> f) w)
       end.

(** *** The Docker client *)

Record Client := {
  pull_of : string → error + stream;
  save_of : string → error + stream
}.

(** [cli.ImagePull(ctx, ref, opts)]. *)
Definition ImagePull (c : Client) (ref : string) : M stream :=
  λ w, match pull_of c ref with
       | inl e => (Fail e, emit (EvImagePull ref false) w)
       | inr s => (Ret s, emit (EvImagePull ref true) w)
       end.

(** [cli.ImageSave(ctx, []string{ref})]. *)
Definition ImageSave (c : Client) (ref : string) : M stream :=
  λ w, match save_of c ref with
       | inl e => (Fail e, emit (EvImageSave ref false) w)
       | inr s => (Ret s, emit (EvImageSave ref true) w)
       end.

(** [s.Close()] on a stream of the Docker client. *)
Definition Close (s : stream_id) : world → world := emit (EvClose s).

#[global] Instance stream_id_eq_dec : EqDecision stream_id.
Proof. solve_decision. Defined.

(** Take one occurrence of [s] out of [l]. *)
Fixpoint remove_one (s : stream_id) (l : list stream_id) : list stream_id :=
  match l with
  | [] => []
  | x :: l' => if decide (x = s) then l' else x :: remove_one s l'
  end.

(** The streams handed out and not closed, after the calls [t] made on
    top of the open streams [acc]. *)
Fixpoint open_after (acc : list stream_id) (t : list event)
  : list stream_id :=
  match t with
  | [] => acc
  | EvImagePull ref true :: t' => open_after (PullLogs ref :: acc) t'
  | EvImageSave ref true :: t' => open_after (SavedImage ref :: acc) t'
  | EvClose s :: t' => open_after (remove_one s acc) t'
  | _ :: t' => open_after acc t'
  end.

Definition open_streams (t : list event) : list stream_id :=
  open_after [] t.

End OS.

Declare Scope go_scope.
Delimit Scope go_scope with go.
Notation "x <- m ;; k" := (OS.bind m (λ x, k))
  (at level 100, m at next level, right associativity) : go_scope.
Notation "m ;; k" := (OS.bind m (λ _, k))
  (at level 100, right associativity) : go_scope.

(** ** [pkg/packager/export.go] *)

Module Packager.
Import GoStrings FS OS.
Local Open Scope go_scope.

(** The [Exporter] struct.  [Client] is the Docker client; [Loader] is the
    [loader.Loader] interface value, a function of the file system and of
    the resolved path it is asked to load.  The [Context] field
    ([context.Background()], never cancelled) has no counterpart. *)
Record Exporter := {
  Source : string;
  Destination : string;
  Thin : bool;
  Client : OS.Client;
  Logs : string;
  Loader : gmap path node → path → error + Bundle;
  Unsigned : bool;
  Signer : string;
  SecretKeyRing : string
}.

Definition buildFileName (uri : string) : string :=
  let filename := ReplaceAll uri "/" "-" in
  ReplaceAll filename ":" "-".

Section Collaborators.

(** The working directory of the process. *)
Variable cwd : path.

(** Package [signature]: a key ring is the ordered list of its keys
    ([kr.Keys()], with [kr.Len()] its length); [KeyRing_Key] is
    [kr.Key(name)]; [Clearsign] is [signature.NewSigner(key).Clearsign],
    which returns the pair [(data, err)]. *)
Variable Key : Type.
Variable LoadKeyRing : gmap path node → path → error + list Key.
Variable KeyRing_Key : list Key → string → error + Key.
Variable Clearsign : Key → Bundle → string * option error.

(** Package [archive]: the bytes of the gzip-compressed tar of a
    directory listing. *)
Variable tar_gz : list (path * node) → string.

Definition archiveImage (ex : Exporter) (image : string)
    (artifactsDir : path) (logs : nat) : M (string * string) :=
  pullLogs <- on_error
      (λ err, Errorf ("Error pulling image " +:+ image +:+ ": "
                      +:+ Error err))
      (ImagePull (Client ex) image) ;;
  defer (Close (PullLogs image)) (
    ignore_error (CopyFrom logs pullLogs) ;;
    reader <- ImageSave (Client ex) image ;;
    defer (Close (SavedImage image)) (
      let name := buildFileName image +:+ ".tar" in
      out <- Create (Join artifactsDir name) ;;
      CopyFrom out reader ;;
      let checksum := "tempchecksum" in
      ret (name, checksum))).

(** [bun] is a pointer in the sources and is updated in place; here the
    updated bundle is the value returned (a caller that gets an error
    does not look at the bundle again). *)
Definition prepareArtifacts (ex : Exporter) (bun : Bundle)
    (archiveDir : path) (logs : nat) : M Bundle :=
  let artifactsDir := Join archiveDir "artifacts" in
  MkdirAll artifactsDir ;;
  imagesWithShasums <- for_range
      (λ entry : string * Image,
         r <- archiveImage ex (Image_Image entry.2) artifactsDir logs ;;
         ret (entry.1, {| Image_Image := Image_Image entry.2;
                          Image_Digest := r.2 |}))
      (Images bun) ;;
  invocationImagesWithShasums <- for_range
      (λ in_ : InvocationImage,
         r <- archiveImage ex (Inv_Image in_) artifactsDir logs ;;
         ret {| Inv_Image := Inv_Image in_; Inv_Digest := r.2 |})
      (InvocationImages bun) ;;
  ret {| Name := Name bun; Version := Version bun;
         Images := imagesWithShasums;
         InvocationImages := invocationImagesWithShasums |}.

Definition writeBundle (bf : Bundle) (signer secretKeyRing : string)
    (outputFile : path) : M unit :=
  kr <- on_error
      (λ err, Errorf ("cannot load keyring: " +:+ Error err))
      (λ w, let w' := emit (EvLoadKeyRing (Abs cwd secretKeyRing)) w in
            match LoadKeyRing (fs w) (Abs cwd secretKeyRing) with
            | inl e => (Fail e, w')
            | inr kr => (Ret kr, w')
            end) ;;
  if Nat.eqb (length kr) 0 then
    fail (Errorf "no signing keys are present in the keyring")
  else
    key <- match kr with
           | k :: _ =>
               if negb (String.eqb signer "") then
                 match KeyRing_Key kr signer with
                 | inl e => fail e
                 | inr k' => ret k'
                 end
               else ret k
           | [] => panic "runtime error: index out of range [0] with length 0"
           end ;;
    signed <- (λ w, (Ret (Clearsign key bf), emit (EvClearsign bf) w)) ;;
    let data := signed.1 +:+ String "010"%char "" in
    match signed.2 with
    | Some err => fail (Errorf ("cannot sign bundle: " +:+ Error err))
    | None =>
        on_error
          (λ err, Errorf ("cannot write bundle to " +:+ render outputFile
                          +:+ ": " +:+ Error err))
          (WriteFile outputFile data)
    end.

(** [archive.TarWithOptions(dir, opts)] with [IncludeFiles: "."] and
    [IncludeSourceDir: true], read to its end. *)
Definition TarWithOptions (dir : path) : M string :=
  λ w, (Ret (tar_gz (listing (fs w) dir)),
        emit (EvTar dir (listing (fs w) dir)) w).

(** [ex.Loader.Load(ex.Source)]; it is called after [os.Stat] has found
    the source, at the place where the walk of the string ends. *)
Definition Load (ex : Exporter) : M Bundle :=
  λ w, match Loader ex (fs w) (Abs cwd (Source ex)) with
       | inl e => (Fail e, w)
       | inr b => (Ret b, w)
       end.

(** Closing an [os.File] changes nothing that is modelled, so the
    deferred [logsf.Close()], [from.Close()], [to.Close()] and
    [writer.Close()] are left out, as is the [fmt.Printf] of the updated
    bundle; [filepath.Abs] fails only when the working directory cannot
    be read, which is not modelled. *)
Definition Export (ex : Exporter) : M unit :=
  logsf <- CreateNamed cwd (Logs ex) ;;
  st <- Stat cwd (Source ex) ;;
  match st.2 with
  | Some err =>
      if IsNotExist err then fail err
      else panic "runtime error: invalid memory address or nil pointer dereference"
  | None =>
  match st.1 with
  | None => panic "runtime error: invalid memory address or nil pointer dereference"
  | Some Dir =>
      fail (Errorf ("Bundle manifest " +:+ Source ex
                    +:+ " is a directory, should be a file"))
  | Some (File _) =>
      bun <- on_error
          (λ err, Errorf ("Error loading bundle: " +:+ Error err))
          (Load ex) ;;
      let name := Name bun +:+ "-" +:+ Version bun in
      let archiveDir := Abs cwd (name +:+ "-export") in
      MkdirAll archiveDir ;;
      defer (RemoveAll archiveDir) (
        from <- OpenNamed cwd (Source ex) ;;
        let bundlefile :=
          if Unsigned ex then "bundle.json" else "bundle.cnab" in
        to <- OpenFile (Join archiveDir bundlefile) ;;
        Copy to from ;;
        (if negb (Thin ex) then
           bun' <- on_error
               (λ err, Errorf ("Error preparing artifacts: "
                               +:+ Error err))
               (prepareArtifacts ex bun archiveDir logsf) ;;
           on_error
             (λ err, Errorf ("Error writing updated bundle file: "
                             +:+ Error err))
             (writeBundle bun' (Signer ex) (SecretKeyRing ex)
                (Join archiveDir bundlefile))
         else ret tt) ;;
        let dest :=
          if negb (String.eqb (Destination ex) "") then Destination ex
          else name +:+ ".tgz" in
        writer <- on_error
            (λ err, Errorf ("Error creating archive file: "
                            +:+ Error err))
            (CreateNamed cwd dest) ;;
        rc <- TarWithOptions archiveDir ;;
        Write writer rc)
  end
  end.

End Collaborators.

End Packager.

(** ** [pkg/imagebuilder/docker/digester/digester.go] *)

Module Digester.
Import GoStrings FS OS.
Local Open Scope go_scope.

(** The [Digester] struct ([Context] has no counterpart). *)
Record Digester := { Client : OS.Client; Image : string }.

Definition NewDigester (client : OS.Client) (image : string) : Digester :=
  {| Client := client; Image := image |}.

Section Digest.

(** [digest.Canonical]: the text of the digest of a sequence of bytes. *)
Variable Canonical : string → string.

(** [d.Client.ImageSave(d.Context, []string{d.Image})], returning the
    pair [(reader, err)]: the reader is nil when the call fails. *)
Definition ImageSave (d : Digester) : M (option stream * option error) :=
  λ w, match save_of (Client d) (Image d) with
       | inl e => (Ret (None, Some e), emit (EvImageSave (Image d) false) w)
       | inr s => (Ret (Some s, None), emit (EvImageSave (Image d) true) w)
       end.

(** [digest.Canonical.FromReader(reader)]: reads the stream to its end;
    reading from a nil reader panics. *)
Definition FromReader (ref : string) (reader : option stream) : M string :=
  match reader with
  | None => panic "runtime error: invalid memory address or nil pointer dereference"
  | Some s =>
      λ w, (match read_err s with
            | Some e => Fail e
            | None => Ret (Canonical (data s))
            end, emit (EvFromReader ref) w)
  end.

(** [Digest] returns [("", err)] on an error: that is [Fail err]. *)
Definition Digest (d : Digester) : M string :=
  saved <- ImageSave d ;;
  computedDigest <- FromReader (Image d) saved.1 ;;
  defer (Close (SavedImage (Image d))) (
    ret computedDigest).

End Digest.

End Digester.

(** ** The command file with [loadBundle] *)

Module Cmd.

(** A [loader.Loader]: [Load(bundleFile)] returns the pair
    [(bun, err)]. *)
Definition Loader : Type := string → option Bundle * option error.

Section Load.

(** Declared in other files of the command package: the home directory,
    the loading of the verifying key rings, and the two constructors of
    package [loader]. *)
Variable KeyRing : Type.
Variable homePath : string.
Variable loadVerifyingKeyRings : string → error + KeyRing.
Variable NewDetectingLoader : Loader.
Variable NewSecureLoader : KeyRing → Loader.

Definition getLoader (home : string) (insecure : bool) : error + Loader :=
  if insecure then inr NewDetectingLoader
  else
    match loadVerifyingKeyRings home with
    | inl err =>
        inl (Errorf ("cannot securely load bundle: " +:+ Error err))
    | inr kr => inr (NewSecureLoader kr)
    end.

Definition loadBundle (bundleFile : string) (insecure : bool)
  : option Bundle * option error :=
  match getLoader homePath insecure with
  | inl err => (None, Some err)
  | inr l =>
      let '(bun, err) := l bundleFile in
      match err with
      | Some err =>
          if String.eqb (Error err) "no signature block in data" then
            (bun, Some ErrNotSigned)
          else
            let secflag := if insecure then "insecure" else "secure" in
            (bun, Some (Errorf ("cannot load " +:+ secflag +:+ " bundle: "
                                +:+ Error err)))
      | None => (bun, None)
      end
  end.

End Load.

End Cmd.

(** ** The command file: [getReference] *)

Module PullCmd.
Import GoStrings.

(** [strings.HasPrefix]. *)
Fixpoint HasPrefix (s prefix : string) {struct prefix} : bool :=
  match prefix, s with
  | "", _ => true
  | String a prefix', String b s' => Ascii.eqb a b && HasPrefix s' prefix'
  | String _ _, "" => false
  end.

(** The text before and the text after the first occurrence of [sep] in
    [s], for a [sep] that is not empty. *)
Fixpoint Cut (s sep : string) {struct s} : option (string * string) :=
  if HasPrefix s sep then Some ("", drop_bytes (String.length sep) s)
  else
    match s with
    | "" => None
    | String c s' =>
        match Cut s' sep with
        | Some (before, after) => Some (String c before, after)
        | None => None
        end
    end.

(** [strings.SplitN(s, sep, 2)], for a [sep] that is not empty. *)
Definition SplitN2 (s sep : string) : list string :=
  match Cut s sep with
  | Some (before, after) => [before; after]
  | None => [s]
  end.

Section Reference.

(** Package [reference]: the named references, the ones with a tag, the
    parser, the test for a reference without tag and digest, the adding of
    a tag, the type assertion to [reference.NamedTagged] and [String()];
    [Quote] is the [%q] verb of [fmt]. *)
Variable Named : Type.
Variable NamedTagged : Type.
Variable ParseNormalizedNamed : string → error + Named.
Variable IsNameOnly : Named → bool.
Variable WithTag : Named → string → error + NamedTagged.
Variable as_NamedTagged : Named → option NamedTagged.
Variable Named_String : Named → string.
Variable Quote : string → string.

Definition getReference (bundleName : string) : result NamedTagged :=
  let parts := SplitN2 bundleName "://" in
  let name :=
    if Nat.eqb (length parts) 2 then nth 1 parts "" else nth 0 parts "" in
  match ParseNormalizedNamed name with
  | inl err =>
      Fail (Errorf (Quote name +:+ " is not a valid bundle name: "
                    +:+ Error err))
  | inr normalizedRef =>
      if IsNameOnly normalizedRef then
        match WithTag normalizedRef "latest" with
        | inl err => Panic (Error err)
        | inr ref => Ret ref
        end
      else
        match as_NamedTagged normalizedRef with
        | Some taggedRef => Ret taggedRef
        | None =>
            Fail (Errorf ("unsupported image name: "
                          +:+ Named_String normalizedRef))
        end
  end.

End Reference.

End PullCmd.

(** ** The example driver script *)

Module Driver.
Import GoStrings.

Record output := { stdout : string; exit_code : nat }.

Definition newline : string := String "010"%char "".

(** The script, run with positional parameters [args] and standard input
    [stdin]; [jq_action] is what [jq .action] prints and exits with on a
    given input.  An unset [$1] expands to the empty string. *)
Definition driver (jq_action : string → string * nat)
    (args : list string) (stdin : string) : output :=
  let arg1 := nth 0 args "" in
  if String.eqb arg1 "--handles" then
    {| stdout := "docker,oci,qcow" +:+ newline; exit_code := 0 |}
  else if String.eqb arg1 "--help" then
    {| stdout := "Put yer helptext here" +:+ newline; exit_code := 1 |}
  else
    let r := jq_action stdin in
    {| stdout := "Plugin: The action is " +:+ r.1; exit_code := r.2 |}.

(** The tokens of one line of comma-separated output. *)
Definition tokens (line : string) : list string := Split line ",".

End Driver.

(** ** Definitions that follow the words of the specification *)

Module Spec.
Import GoStrings FS.

(** "replacing [/] and [:] in the reference with [-]". *)
Definition sanitize_byte (c : ascii) : ascii :=
  if Ascii.eqb c "/" then "-"%char
  else if Ascii.eqb c ":" then "-"%char
  else c.

(** "one file per referenced image named by replacing [/] and [:] in the
    reference with [-], suffixed [.tar]". *)
Definition artifact_name (ref : string) : string :=
  of_bytes (sanitize_byte <$> bytes ref) +:+ ".tar".

(** The image references of a bundle, in the order the exporter goes
    through them: the images, then the invocation images. *)
Definition references (b : Bundle) : list string :=
  ((λ entry : string * Image, Image_Image entry.2) <$> Images b)
    ++ (Inv_Image <$> InvocationImages b).

(** The names of the regular files that an archive listing has directly
    in its [artifacts/] directory. *)
Definition artifact_files (members : list (path * node)) : list string :=
  omap (λ m : path * node,
          match m with
          | ([d; n], File _) =>
              if String.eqb d "artifacts" then Some n else None
          | _ => None
          end) members.

(** The staging directory of a bundle, for working directory [cwd]. *)
Definition staging (cwd : path) (bun : Bundle) : path :=
  Abs cwd ((Name bun +:+ "-" +:+ Version bun) +:+ "-export").

(** The name of the descriptor file in the staging directory. *)
Definition bundlefile (ex : Packager.Exporter) : string :=
  if Packager.Unsigned ex then "bundle.json" else "bundle.cnab".

(** The name of the destination, as [Export] passes it to [os.Create]. *)
Definition destination_name (ex : Packager.Exporter) (bun : Bundle)
  : string :=
  if negb (String.eqb (Packager.Destination ex) "")
  then Packager.Destination ex
  else (Name bun +:+ "-" +:+ Version bun) +:+ ".tgz".

(** The destination of the archive. *)
Definition destination (cwd : path) (ex : Packager.Exporter) (bun : Bundle)
  : path :=
  Abs cwd (destination_name ex bun).

(** The digests of a bundle, in the order of [references]. *)
Definition digests (b : Bundle) : list string :=
  ((λ entry : string * Image, Image_Digest entry.2) <$> Images b)
    ++ (Inv_Digest <$> InvocationImages b).

(** Is the event a call to the Docker client or the closing of one of its
    streams? *)
Definition docker_event (ev : OS.event) : Prop :=
  match ev with
  | OS.EvImagePull _ _ | OS.EvImageSave _ _ | OS.EvClose _ => True
  | _ => False
  end.

(** The bundle with the checksums [sums] (one per reference, in the order
    of [references]) written into the digests. *)
Definition with_digests (b : Bundle) (sums : list string) : Bundle :=
  {| Name := Name b; Version := Version b;
     Images :=
       zip_with (λ (entry : string * Image) (sum : string),
                   (entry.1, {| Image_Image := Image_Image entry.2;
                                Image_Digest := sum |}))
                (Images b) sums;
     InvocationImages :=
       zip_with (λ (inv : InvocationImage) (sum : string),
                   {| Inv_Image := Inv_Image inv; Inv_Digest := sum |})
                (InvocationImages b) (drop (length (Images b)) sums) |}.

(** The world after [bytes] were written through the open file [fd] (the
    outcome of the write left aside). *)
Definition written (fd : nat) (bytes : string) (w : OS.world) : OS.world :=
  (OS.Write fd bytes w).2.

(** What the client saves for a reference (nothing, if it cannot). *)
Definition saved_bytes (c : OS.Client) (ref : string) : string :=
  match OS.save_of c ref with
  | inr s => OS.data s
  | inl _ => ""
  end.

(** A tree to which one artifact file per reference was added in directory
    [dir], each under its artifact name; a later reference with the name of
    an earlier one takes its place. *)
Definition with_artifacts (c : OS.Client) (dir : path) (refs : list string)
    (tree : gmap path node) : gmap path node :=
  foldl (λ m ref, <[dir ++ [artifact_name ref] := File (saved_bytes c ref)]> m)
        tree refs.

(** The content of the staging directory of a thin export: the directory
    and the descriptor. *)
Definition thin_tree (descriptor : string) (content : string)
  : gmap path node :=
  <[ [descriptor] := File content ]> {[ [] := Dir ]}.

(** The content of the staging directory of a thick export: the directory,
    the signed descriptor, the artifacts directory and the artifacts. *)
Definition thick_tree (c : OS.Client) (descriptor : string) (signed : string)
    (refs : list string) : gmap path node :=
  <[ [descriptor] := File signed ]>
    (with_artifacts c ["artifacts"] refs
       (<[ ["artifacts"] := Dir ]> {[ [] := Dir ]})).

(** The path an open file was opened on. *)
Definition fd_path (w : OS.world) (fd : nat) : option path :=
  fst <$> OS.fds w !! fd.

(** Every file open in [w] is open in [w'], on the same path. *)
Definition fds_kept (w w' : OS.world) : Prop :=
  ∀ fd p, fd_path w fd = Some p → fd_path w' fd = Some p.

(** The part of the file system at or below directory [d]. *)
Definition under (d : path) (f : gmap path node) : gmap path node :=
  filter (λ kv : path * node, d `prefix_of` kv.1) f.

End Spec.

(** ** Concrete worlds used to run the model *)

Module Examples.
Import GoStrings FS OS.

Definition cwd : path := ["work"].

(** A stand-in for the archive encoder: the paths of the listing. *)
Definition toy_tar (members : list (path * node)) : string :=
  foldr (λ m acc, render m.1 +:+ ";" +:+ acc) "" members.

Definition image (ref : string) : Image :=
  {| Image_Image := ref; Image_Digest := "" |}.

(** The bundle of the scenario of the specification. *)
Definition app : Bundle :=
  {| Name := "app"; Version := "1.0.0";
     Images := [("db", image "postgres:12")];
     InvocationImages := [] |}.

(** A bundle with two references that get the same file name. *)
Definition clash : Bundle :=
  {| Name := "app"; Version := "1.0.0";
     Images := [("one", image "a/b"); ("two", image "a:b")];
     InvocationImages := [] |}.

(** A bundle whose second image cannot be saved. *)
Definition broken : Bundle :=
  {| Name := "app"; Version := "1.0.0";
     Images := [("db", image "postgres:12"); ("bad", image "missing:1");
                ("web", image "nginx:1")];
     InvocationImages := [] |}.

Definition home : gmap path node :=
  <[ ["work"] := Dir ]>
    (<[ ["work"; "bundle.cnab"] := File "SIGNED" ]>
       (<[ ["work"; "ring"] := File "KEYS" ]> ∅)).

(** The same, with a staging directory left behind that holds a file. *)
Definition home_staged : gmap path node :=
  <[ ["work"; "app-1.0.0-export"] := Dir ]>
    (<[ ["work"; "app-1.0.0-export"; "stale"] := File "old" ]> home).

Definition start (f : gmap path node) : world := World f [] [].

(** A world in which an artifacts directory exists and the log file is
    open. *)
Definition prepared : world :=
  World (<[ ["work"; "artifacts"] := Dir ]> home)
        [(["work"; "export.log"], 0)] [].

Definition docker : OS.Client :=
  {| pull_of := λ ref, inr {| data := "pulled " +:+ ref; read_err := None |};
     save_of := λ ref,
       if String.eqb ref "missing:1" then inl (Errorf "No such image")
       else inr {| data := "layers of " +:+ ref; read_err := None |} |}.

Definition exporter (source : string) (thin : bool) (b : Bundle)
  : Packager.Exporter :=
  {| Packager.Source := source; Packager.Destination := "";
     Packager.Thin := thin; Packager.Client := docker;
     Packager.Logs := "export.log";
     Packager.Loader := λ _ _, inr b;
     Packager.Unsigned := false; Packager.Signer := "";
     Packager.SecretKeyRing := "ring" |}.

(** Stand-ins for package [signature]: keys are names. *)
Definition ring_of (keys : list string)
  : gmap path node → path → error + list string := λ _ _, inr keys.

Definition key_by_name (kr : list string) (name : string)
  : error + string :=
  if bool_decide (name ∈ kr) then inr name else inl (Errorf "key not found").

Definition sign (key : string) (b : Bundle) : string * option error :=
  ("signed by " +:+ key, None).

Definition Export (keys : list string) (ex : Packager.Exporter) : M unit :=
  Packager.Export cwd string (ring_of keys) key_by_name sign toy_tar ex.

End Examples.

(** ** More definitions for the statements about the code *)

Module Facts.
Import GoStrings FS OS.

(** A function body that does not panic, in whatever world it runs. *)
Definition no_panic {A} (m : M A) : Prop :=
  ∀ w msg, (m w).1 ≠ Panic msg.

(** The calls a function body adds to the ones made so far all satisfy
    [P], in whatever world it runs and however it ends. *)
Definition calls {A} (P : list event → Prop) (m : M A) : Prop :=
  ∀ w, ∃ t, trace (m w).2 = trace w ++ t ∧ P t.

(** Calls that leave open the streams that were open before them, and no
    other. *)
Definition balanced (t : list event) : Prop :=
  ∀ acc, open_after acc t = acc.

(** Is the event the making of a tar archive? *)
Definition is_tar (ev : event) : Prop :=
  match ev with
  | EvTar _ _ => True
  | _ => False
  end.

(** The bytes the client prints while pulling a reference (nothing, if it
    cannot pull it). *)
Definition pulled_bytes (c : OS.Client) (ref : string) : string :=
  match pull_of c ref with
  | inr s => data s
  | inl _ => ""
  end.

(** A client that cannot reach its registry. *)
Definition offline : OS.Client :=
  {| pull_of := λ ref, inl (Errorf "registry unreachable");
     save_of := λ ref, inl (Errorf "No such image") |}.

(** A client whose saved stream breaks while it is read. *)
Definition flaky : OS.Client :=
  {| pull_of := λ ref, inr {| data := "pulled " +:+ ref; read_err := None |};
     save_of := λ ref,
       inr {| data := "lay"; read_err := Some (Errorf "unexpected EOF") |} |}.

(** An exporter like [Examples.exporter], with another client. *)
Definition exporter_with (c : OS.Client) (b : Bundle) : Packager.Exporter :=
  {| Packager.Source := "bundle.cnab"; Packager.Destination := "";
     Packager.Thin := false; Packager.Client := c;
     Packager.Logs := "export.log";
     Packager.Loader := λ _ _, inr b;
     Packager.Unsigned := false; Packager.Signer := "";
     Packager.SecretKeyRing := "ring" |}.

(** An exporter whose loader rejects what it is given. *)
Definition exporter_rejecting (source msg : string) : Packager.Exporter :=
  {| Packager.Source := source; Packager.Destination := "out/app.tgz";
     Packager.Thin := true; Packager.Client := offline;
     Packager.Logs := "export.log";
     Packager.Loader := λ _ _, inl (Errorf msg);
     Packager.Unsigned := true; Packager.Signer := "";
     Packager.SecretKeyRing := "ring" |}.

End Facts.

(** * Properties *)

Import GoStrings FS OS.

(** ** Strings and paths *)

Lemma length_append (a b : string) :
  String.length (a +:+ b) = String.length a + String.length b.
Proof. induction a as [|c a IH]; simpl; [done | by rewrite IH]. Qed.

Lemma ContainsByte_append (a b : string) (c : ascii) :
  ContainsByte (a +:+ b) c = ContainsByte a c || ContainsByte b c.
Proof.
  induction a as [|d a IH]; simpl; [done|].
  rewrite IH. by rewrite orb_assoc.
Qed.

Lemma Split_no_separator (s : string) (sep : ascii) :
  ContainsByte s sep = false → Split s sep = [s].
Proof.
  induction s as [|c s IH]; simpl; [done|].
  intros [Hc Hs]%orb_false_iff. rewrite Hc. by rewrite (IH Hs).
Qed.

Lemma step_plain (acc : path) (c : string) :
  3 ≤ String.length c → step acc c = acc ++ [c].
Proof.
  intros Hlen. unfold step.
  destruct (decide (c = "" ∨ c = ".")) as [[-> | ->]|_]; simpl in Hlen; [lia..|].
  destruct (decide (c = "..")) as [->|_]; simpl in Hlen; [lia|done].
Qed.

Lemma Join_plain (dir : path) (name : string) :
  ContainsByte name "/" = false → 3 ≤ String.length name →
  Join dir name = dir ++ [name].
Proof.
  intros Hsep Hlen. unfold Join, resolve.
  rewrite (Split_no_separator _ _ Hsep). simpl. by apply step_plain.
Qed.

Lemma drop_bytes_nil (n : nat) : drop_bytes n "" = "".
Proof. by destruct n. Qed.

Lemma append_cons (c : ascii) (a b : string) :
  String c a +:+ b = String c (a +:+ b).
Proof. reflexivity. Qed.

Lemma append_empty_l (s : string) : "" +:+ s = s.
Proof. reflexivity. Qed.

Lemma append_empty_r (s : string) : s +:+ "" = s.
Proof.
  induction s as [|c s IH]; [done|]. by rewrite append_cons, IH.
Qed.

Lemma pwrite_fresh (bytes : string) : pwrite "" 0 bytes = bytes.
Proof.
  unfold pwrite. rewrite drop_bytes_nil, append_empty_r. done.
Qed.

(** ** [buildFileName] *)

Lemma buildFileName_bytes (uri : string) :
  Packager.buildFileName uri = of_bytes (Spec.sanitize_byte <$> bytes uri).
Proof.
  unfold Packager.buildFileName.
  induction uri as [|c s IH]; simpl; [done|].
  unfold Spec.sanitize_byte at 1.
  destruct (Ascii.eqb c "/") eqn:Hslash.
  - rewrite append_cons, append_empty_l. simpl. by rewrite IH.
  - simpl. destruct (Ascii.eqb c ":") eqn:Hcolon.
    + rewrite append_cons, append_empty_l. by rewrite IH.
    + by rewrite IH.
Qed.

Lemma sanitize_byte_no_slash (c : ascii) :
  Ascii.eqb (Spec.sanitize_byte c) "/" = false.
Proof.
  unfold Spec.sanitize_byte.
  destruct (Ascii.eqb c "/") eqn:Hslash; [done|].
  destruct (Ascii.eqb c ":") eqn:Hcolon; done.
Qed.

Lemma buildFileName_no_slash (uri : string) :
  ContainsByte (Packager.buildFileName uri) "/" = false.
Proof.
  rewrite buildFileName_bytes.
  induction uri as [|c s IH]; csimpl; [done|].
  by rewrite sanitize_byte_no_slash, IH.
Qed.

Lemma artifact_path (dir : path) (image : string) :
  Join dir (Packager.buildFileName image +:+ ".tar")
  = dir ++ [Packager.buildFileName image +:+ ".tar"].
Proof.
  apply Join_plain.
  - by rewrite ContainsByte_append, buildFileName_no_slash.
  - rewrite length_append. simpl. lia.
Qed.

(** ** The example driver *)

(** C8: invoked with first argument [--handles], the driver writes the
    comma-separated list of the tokens [docker], [oci] and [qcow] (one line)
    to standard output and exits with code 0, whatever its other arguments
    and its standard input. *)
Theorem driver_handles (jq_action : string → string * nat)
    (rest : list string) (stdin : string) :
  let out := Driver.driver jq_action ("--handles" :: rest) stdin in
  Driver.stdout out = "docker,oci,qcow" +:+ Driver.newline
  ∧ Driver.tokens "docker,oci,qcow" = ["docker"; "oci"; "qcow"]
  ∧ Driver.exit_code out = 0.
Proof. repeat split. Qed.

(** ** [loadBundle] *)

(** C3: let [chosen] be the loader that [loadBundle] gets: the detecting
    loader for an insecure load, the secure loader over the verifying key
    rings for a secure one (none, when the key rings cannot be loaded).
    - [loadBundle] returns the sentinel [ErrNotSigned] exactly when a loader
      was chosen and its [Load] failed with the message
      ["no signature block in data"];
    - every other failure of [Load] (an invalid signature, malformed JSON)
      is returned as an error: the value made by [fmt.Errorf] from the text
      "cannot load <secure|insecure> bundle: " and the message of the
      loader, which is not the sentinel and does not have its message;
    - when the key rings cannot be loaded, the error returned is the one
      made from "cannot securely load bundle: ";
    - no error is returned only when [Load] returned none;
    - so an error other than the sentinel is never the sentinel under
      another name: it is a value made by [fmt.Errorf], with a message
      different from the sentinel's. *)
Theorem loadBundle_not_signed_distinct (KeyRing : Type) (homePath : string)
    (loadVerifyingKeyRings : string → error + KeyRing)
    (NewDetectingLoader : Cmd.Loader) (NewSecureLoader : KeyRing → Cmd.Loader)
    (bundleFile : string) (insecure : bool) :
  let r := Cmd.loadBundle KeyRing homePath loadVerifyingKeyRings
             NewDetectingLoader NewSecureLoader bundleFile insecure in
  let chosen : option Cmd.Loader :=
    if insecure then Some NewDetectingLoader
    else match loadVerifyingKeyRings homePath with
         | inr kr => Some (NewSecureLoader kr)
         | inl _ => None
         end in
  (r.2 = Some ErrNotSigned ↔
     ∃ l bun err,
       chosen = Some l
       ∧ l bundleFile = (bun, Some err)
       ∧ Error err = "no signature block in data")
  ∧ (∀ l bun err,
       chosen = Some l → l bundleFile = (bun, Some err) →
       Error err ≠ "no signature block in data" →
       ∃ msg,
         r = (bun, Some (Errorf msg))
         ∧ msg = "cannot load "
                 +:+ (if insecure then "insecure" else "secure")
                 +:+ " bundle: " +:+ Error err
         ∧ msg ≠ Error ErrNotSigned)
  ∧ (∀ e, insecure = false → loadVerifyingKeyRings homePath = inl e →
       r = (None,
            Some (Errorf ("cannot securely load bundle: " +:+ Error e))))
  ∧ (r.2 = None ↔ ∃ l bun, chosen = Some l ∧ l bundleFile = (bun, None))
  ∧ (∀ err, r.2 = Some err → err ≠ ErrNotSigned →
       ∃ msg, err = Errorf msg ∧ msg ≠ Error ErrNotSigned).
Proof.
  unfold Cmd.loadBundle, Cmd.getLoader. cbv zeta.
  assert (∀ l : Cmd.Loader,
            let r := let '(bun, err) := l bundleFile in
                     match err with
                     | Some err =>
                         if String.eqb (Error err)
                              "no signature block in data"
                         then (bun, Some ErrNotSigned)
                         else
                           (bun,
                            Some (Errorf ("cannot load "
                                          +:+ (if insecure then "insecure"
                                               else "secure")
                                          +:+ " bundle: " +:+ Error err)))
                     | None => (bun, None)
                     end in
            (r.2 = Some ErrNotSigned ↔
               ∃ l' bun err,
                 Some l = Some l' ∧ l' bundleFile = (bun, Some err)
                 ∧ Error err = "no signature block in data")
            ∧ (∀ l' bun err,
                 Some l = Some l' → l' bundleFile = (bun, Some err) →
                 Error err ≠ "no signature block in data" →
                 ∃ msg,
                   r = (bun, Some (Errorf msg))
                   ∧ msg = "cannot load "
                           +:+ (if insecure then "insecure" else "secure")
                           +:+ " bundle: " +:+ Error err
                   ∧ msg ≠ Error ErrNotSigned)
            ∧ (r.2 = None
               ↔ ∃ l' bun, Some l = Some l' ∧ l' bundleFile = (bun, None))
            ∧ (∀ err, r.2 = Some err → err ≠ ErrNotSigned →
                 ∃ msg, err = Errorf msg ∧ msg ≠ Error ErrNotSigned))
    as Hloader.
  { intros l. cbv zeta.
    destruct (l bundleFile) as [bun [err|]] eqn:Hload.
    - destruct (String.eqb (Error err) "no signature block in data")
        eqn:Hmsg; simpl.
      + apply String.eqb_eq in Hmsg. split; [|split; [|split]].
        * split; [|done]. intros _. by exists l, bun, err.
        * intros l' bun' err' [= <-] Hl Herr. rewrite Hload in Hl.
          injection Hl as <- <-. done.
        * split; [done|]. intros (l' & bun' & [= <-] & Hl).
          by rewrite Hload in Hl.
        * by intros ? [= <-] ?.
      + apply String.eqb_neq in Hmsg. split; [|split; [|split]].
        * split; [done|].
          intros (l' & bun' & err' & [= <-] & Hl & Herr).
          rewrite Hload in Hl. by injection Hl as <- <-.
        * intros l' bun' err' [= <-] Hl _. rewrite Hload in Hl.
          injection Hl as <- <-. eexists. split; [done|]. split; [done|].
          by destruct insecure.
        * split; [done|]. intros (l' & bun' & [= <-] & Hl).
          by rewrite Hload in Hl.
        * intros ? [= <-] _. eexists. split; [done|]. by destruct insecure.
    - simpl. split; [|split; [|split]].
      + split; [done|]. intros (l' & bun' & err' & [= <-] & Hl & _).
        by rewrite Hload in Hl.
      + intros l' bun' err' [= <-] Hl. by rewrite Hload in Hl.
      + split; [|done]. intros _. by exists l, bun.
      + by intros ? [=]. }
  destruct insecure.
  - destruct (Hloader NewDetectingLoader) as (H1 & H2 & H3 & H4).
    split; [done|]. split; [done|]. split; [done|]. by split.
  - destruct (loadVerifyingKeyRings homePath) as [e|kr] eqn:Hkr.
    + simpl. split; [|split; [|split; [|split]]].
      * split; [done|]. by intros (l & bun & err & ? & _).
      * by intros l bun err.
      * by intros ? _ [= <-].
      * split; [done|]. by intros (l & bun & ? & _).
      * intros err [= <-] _. eexists. split; done.
    + destruct (Hloader (NewSecureLoader kr)) as (H1 & H2 & H3 & H4).
      split; [done|]. split; [done|]. split; [done|]. by split.
Qed.

(** ** [Digester.Digest] *)

(** On the path without an error, the deferred [Close] runs: no stream of
    the call stays open. *)
Lemma Digest_success_closes (Canonical : string → string)
    (pull : string → error + stream) (ref bytes : string) (w : world) :
  let c := {| pull_of := pull;
              save_of := λ _, inr {| data := bytes; read_err := None |} |} in
  let calls := [EvImageSave ref true; EvFromReader ref;
                EvClose (SavedImage ref)] in
  Digester.Digest Canonical (Digester.NewDigester c ref) w
  = (Ret (Canonical bytes), World (fs w) (fds w) (trace w ++ calls))
  ∧ open_streams calls = [].
Proof.
  split; [|unfold open_streams; simpl; by case_decide].
  unfold Digester.Digest, bind, defer, Digester.ImageSave, Digester.FromReader,
    Close, emit, ret; simpl.
  by rewrite <- !app_assoc.
Qed.

(** C5, at the failing input: when reading the saved image fails, [Digest]
    returns the error before its [defer reader.Close()] is reached; the
    calls of the run are [ImageSave] (which handed out the stream) and
    [FromReader], no [Close], and the stream stays open. *)
Theorem Digest_read_failure_leaks (Canonical : string → string)
    (pull : string → error + stream) (ref bytes : string) (e : error)
    (w : world) :
  let c := {| pull_of := pull;
              save_of := λ _, inr {| data := bytes; read_err := Some e |} |} in
  let calls := [EvImageSave ref true; EvFromReader ref] in
  Digester.Digest Canonical (Digester.NewDigester c ref) w
  = (Fail e, World (fs w) (fds w) (trace w ++ calls))
  ∧ open_streams calls = [SavedImage ref].
Proof.
  split; [|done].
  unfold Digester.Digest, bind, defer, Digester.ImageSave, Digester.FromReader,
    emit; simpl.
  by rewrite <- !app_assoc.
Qed.

(** When [ImageSave] itself fails, its error is overwritten and the nil
    reader is read: [Digest] panics. *)
Lemma Digest_save_failure_panics (Canonical : string → string)
    (pull : string → error + stream) (ref : string) (e : error) (w : world) :
  let c := {| pull_of := pull; save_of := λ _, inl e |} in
  (Digester.Digest Canonical (Digester.NewDigester c ref) w).1
  = Panic "runtime error: invalid memory address or nil pointer dereference".
Proof. done. Qed.

(** ** [writeBundle] *)

(** C4: with a key ring of zero keys, [writeBundle] returns the error "no
    signing keys are present in the keyring" right after the key ring was
    loaded: the file system and the open files are as before, and loading
    the key ring is the only call made — [Clearsign] is not invoked and no
    file is written. *)
Theorem writeBundle_empty_keyring (cwd : path) (Key : Type)
    (LoadKeyRing : gmap path node → path → error + list Key)
    (KeyRing_Key : list Key → string → error + Key)
    (Clearsign : Key → Bundle → string * option error)
    (bf : Bundle) (signer secretKeyRing : string) (outputFile : path)
    (w : world) :
  LoadKeyRing (fs w) (Abs cwd secretKeyRing) = inr [] →
  let rw := Packager.writeBundle cwd Key LoadKeyRing KeyRing_Key Clearsign
              bf signer secretKeyRing outputFile w in
  rw.1 = Fail (Errorf "no signing keys are present in the keyring")
  ∧ fs rw.2 = fs w
  ∧ fds rw.2 = fds w
  ∧ trace rw.2 = trace w ++ [EvLoadKeyRing (Abs cwd secretKeyRing)].
Proof.
  intros Hring. unfold Packager.writeBundle, bind, on_error.
  rewrite Hring. simpl. done.
Qed.

Lemma writeBundle_empty_keyring_witness :
  let rw := Packager.writeBundle Examples.cwd string (Examples.ring_of [])
              Examples.key_by_name Examples.sign Examples.app "" "ring"
              ["work"; "app-1.0.0-export"; "bundle.cnab"]
              (Examples.start Examples.home) in
  rw.1 = Fail (Errorf "no signing keys are present in the keyring")
  ∧ fs rw.2 = Examples.home
  ∧ fds rw.2 = []
  ∧ trace rw.2 = [EvLoadKeyRing ["work"; "ring"]].
Proof.
  apply (writeBundle_empty_keyring Examples.cwd string (Examples.ring_of [])
           Examples.key_by_name Examples.sign Examples.app "" "ring"
           ["work"; "app-1.0.0-export"; "bundle.cnab"]
           (Examples.start Examples.home)).
  reflexivity.
Defined.

(** ** [Export]: validation of the source *)

(** Whenever [os.Stat] on the source fails with an error other than "does
    not exist", [Export] goes on to call [fi.IsDir()] on the nil [FileInfo]
    and panics. *)
Lemma Export_stat_error_panics (cwd : path) (Key : Type)
    (LoadKeyRing : gmap path node → path → error + list Key)
    (KeyRing_Key : list Key → string → error + Key)
    (Clearsign : Key → Bundle → string * option error)
    (tar_gz : list (path * node) → string)
    (ex : Packager.Exporter) (w w1 : world) (logsf : nat) (e : errno) :
  CreateNamed cwd (Packager.Logs ex) w = (Ret logsf, w1) →
  stat_name (fs w1) cwd (Packager.Source ex) = inl e →
  e ≠ ENOENT →
  Packager.Export cwd Key LoadKeyRing KeyRing_Key Clearsign tar_gz ex w
  = (Panic "runtime error: invalid memory address or nil pointer dereference", w1).
Proof.
  intros Hlog Hstat Hne. unfold Packager.Export, bind at 1. rewrite Hlog.
  unfold bind at 1, Stat. rewrite Hstat. simpl.
  by destruct e.
Qed.

(** C9, at the failing input: the source [bundle.cnab/x] lies below the
    regular file [bundle.cnab], so [os.Stat] fails with "not a directory";
    [Export] does not return an error, it panics. *)
Theorem Export_source_below_file_panics :
  ∃ w',
    stat_name Examples.home Examples.cwd "bundle.cnab/x" = inl ENOTDIR
    ∧ Examples.Export ["key"]
        (Examples.exporter "bundle.cnab/x" true Examples.app)
        (Examples.start Examples.home)
      = (Panic "runtime error: invalid memory address or nil pointer dereference", w').
Proof. eexists. split; vm_compute; reflexivity. Qed.

(** ** Running a function body step by step *)

Ltac destruct_match :=
  match goal with
  | H : context [match ?x with _ => _ end] |- _ => destruct x eqn:?
  | |- context [match ?x with _ => _ end] => destruct x eqn:?
  end.

Ltac run_all := repeat (simplify_eq/=; try destruct_match); simplify_eq/=.


Lemma bind_inv {A B} (m : M A) (k : A → M B) (w w' : world) (r : result B) :
  bind m k w = (r, w') →
  (∃ a w1, m w = (Ret a, w1) ∧ k a w1 = (r, w'))
  ∨ (∃ e, m w = (Fail e, w') ∧ r = Fail e)
  ∨ (∃ msg, m w = (Panic msg, w') ∧ r = Panic msg).
Proof.
  unfold bind. destruct (m w) as [[a | e | msg] w1]; intros H.
  - left. by exists a, w1.
  - right. left. injection H as <- <-. by exists e.
  - right. right. injection H as <- <-. by exists msg.
Qed.

Lemma bind_Ret_inv {A B} (m : M A) (k : A → M B) (w w' : world) (b : B) :
  bind m k w = (Ret b, w') →
  ∃ a w1, m w = (Ret a, w1) ∧ k a w1 = (Ret b, w').
Proof.
  intros [(a & w1 & Hm & Hk) | [(e & _ & ?) | (msg & _ & ?)]]%bind_inv;
    [by exists a, w1 | done | done].
Qed.

Lemma bind_Ret {A B} (m : M A) (k : A → M B) (w w1 : world) (a : A) :
  m w = (Ret a, w1) → bind m k w = k a w1.
Proof. unfold bind. by intros ->. Qed.

Lemma bind_Fail {A B} (m : M A) (k : A → M B) (w w1 : world) (e : error) :
  m w = (Fail e, w1) → bind m k w = (Fail e, w1).
Proof. unfold bind. by intros ->. Qed.

(** Two bodies that start with the same call and go on in the same way
    after each of its returns are the same. *)
Lemma bind_ext {A B} (m : M A) (k k' : A → M B) (w : world) :
  (∀ a w1, m w = (Ret a, w1) → k a w1 = k' a w1) →
  bind m k w = bind m k' w.
Proof.
  intros H. unfold bind. destruct (m w) as [[a | e | msg] w1]; [|done..].
  by apply H.
Qed.

Lemma defer_inv {A} (d : world → world) (body : M A) (w w' : world)
    (r : result A) :
  defer d body w = (r, w') → ∃ w1, body w = (r, w1) ∧ w' = d w1.
Proof.
  unfold defer. destruct (body w) as [r1 w1]. intros [= <- <-]. by exists w1.
Qed.

Lemma on_error_Ret_inv {A} (wrap : error → error) (m : M A) (w w' : world)
    (a : A) :
  on_error wrap m w = (Ret a, w') → m w = (Ret a, w').
Proof. unfold on_error. by destruct (m w) as [[a1 | e | msg] w1]. Qed.

Lemma on_error_Ret {A} (wrap : error → error) (m : M A) (w w' : world)
    (a : A) :
  m w = (Ret a, w') → on_error wrap m w = (Ret a, w').
Proof. unfold on_error. by intros ->. Qed.

Lemma on_error_Fail {A} (wrap : error → error) (m : M A) (w w' : world)
    (e : error) :
  m w = (Fail e, w') → on_error wrap m w = (Fail (wrap e), w').
Proof. unfold on_error. by intros ->. Qed.

Lemma ignore_error_CopyFrom (fd : nat) (s : stream) (w : world) :
  ignore_error (CopyFrom fd s) w = (Ret tt, Spec.written fd (data s) w).
Proof.
  unfold ignore_error, CopyFrom, bind, Spec.written, Write.
  destruct (fds w !! fd) as [[p off]|]; simpl; [|done].
  by destruct (read_err s).
Qed.

(** ** File system operations *)

Lemma create_inr (trunc : bool) (f f' : gmap path node) (p : path) :
  create trunc f p = inr f' →
  p ≠ [] ∧ stat f (removelast p) = inr Dir ∧ f !! p ≠ Some Dir
  ∧ f' = match f !! p with
         | Some (File d) => if trunc then <[p := File ""]> f else f
         | _ => <[p := File ""]> f
         end.
Proof.
  unfold create. destruct p as [|c p]; [done|].
  destruct (stat f (removelast (c :: p))) as [e | [|d]]; [done| |done].
  destruct (f !! (c :: p)) as [[|d]|]; [done|..]; by intros [= <-].
Qed.

Lemma Create_Ret_inv (p : path) (w w' : world) (fd : nat) :
  Create p w = (Ret fd, w') →
  ∃ f, create true (fs w) p = inr f ∧ fd = length (fds w)
       ∧ w' = World f (fds w ++ [(p, 0)]) (trace w).
Proof.
  unfold Create. destruct (create true (fs w) p) as [e | f] eqn:H; [done|].
  intros [= <- <-]. by exists f.
Qed.

(** *** Calls on a path string *)

(** A walk that goes through ends where [filepath.Abs] says. *)
Lemma namei_from_resolve (creating : bool) (f : gmap path node)
    (cur q : path) (comps : list string) :
  namei_from creating f cur comps = inr q → q = resolve cur comps.
Proof.
  revert cur. induction comps as [|c comps IH]; intros cur; simpl.
  - by intros [= <-].
  - destruct (lookup_node f cur) as [[|d]|]; [|done..]. apply IH.
Qed.

Lemma namei_Abs (creating : bool) (f : gmap path node) (cwd q : path)
    (name : string) :
  namei creating f cwd name = inr q → q = Abs cwd name.
Proof.
  unfold namei. destruct (String.eqb name ""); [done|].
  apply namei_from_resolve.
Qed.

Lemma stat_name_inr (f : gmap path node) (cwd : path) (name : string)
    (n : node) :
  stat_name f cwd name = inr n → stat f (Abs cwd name) = inr n.
Proof.
  unfold stat_name.
  destruct (namei false f cwd name) as [e|q] eqn:Hq; [done|].
  by apply namei_Abs in Hq as ->.
Qed.

Lemma CreateNamed_Ret (cwd : path) (name : string) (w w' : world)
    (fd : nat) :
  CreateNamed cwd name w = (Ret fd, w') →
  Create (Abs cwd name) w = (Ret fd, w').
Proof.
  unfold CreateNamed.
  destruct (namei true (fs w) cwd name) as [e|q] eqn:Hq; [done|].
  apply namei_Abs in Hq as ->. apply on_error_Ret_inv.
Qed.

Lemma OpenNamed_Ret (cwd : path) (name : string) (w w' : world) (fd : nat) :
  OpenNamed cwd name w = (Ret fd, w') →
  Open (Abs cwd name) w = (Ret fd, w').
Proof.
  unfold OpenNamed.
  destruct (namei false (fs w) cwd name) as [e|q] eqn:Hq; [done|].
  apply namei_Abs in Hq as ->. apply on_error_Ret_inv.
Qed.

Lemma create_true_insert (f f' : gmap path node) (p : path) :
  create true f p = inr f' → f' = <[p := File ""]> f.
Proof.
  intros (_ & _ & _ & ->)%create_inr. by destruct (f !! p) as [[|d]|].
Qed.

Lemma write_at_fresh (f : gmap path node) (p : path) (bytes : string) :
  f !! p = Some (File "") → write_at f p 0 bytes = <[p := File bytes]> f.
Proof.
  intros Hp. unfold write_at. rewrite Hp. destruct bytes as [|c s].
  - by rewrite insert_id.
  - by rewrite pwrite_fresh.
Qed.

(** Writing through a handle that was just made by [os.Create]. *)
Lemma Write_created (f : gmap path node) (tab : list (path * nat))
    (t : list event) (p : path) (bytes : string) :
  Write (length tab) bytes (World (<[p := File ""]> f) (tab ++ [(p, 0)]) t)
  = (Ret tt, World (<[p := File bytes]> f)
               (tab ++ [(p, String.length bytes)]) t).
Proof.
  unfold Write. simpl.
  rewrite lookup_app_r, Nat.sub_diag by done. simpl.
  rewrite write_at_fresh by apply lookup_insert_eq.
  rewrite insert_insert_eq. do 3 f_equal.
  rewrite insert_app_r_alt, Nat.sub_diag by done. done.
Qed.

Lemma written_emit (fd : nat) (bytes : string) (e : event) (w : world) :
  Spec.written fd bytes (emit e w) = emit e (Spec.written fd bytes w).
Proof.
  unfold Spec.written, Write, emit; simpl.
  by destruct (fds w !! fd) as [[p off]|].
Qed.

Lemma written_trace (fd : nat) (bytes : string) (w : world) :
  trace (Spec.written fd bytes w) = trace w.
Proof.
  unfold Spec.written, Write. by destruct (fds w !! fd) as [[p off]|].
Qed.

(** ** [archiveImage] *)

(** What a call of [archiveImage] that returns without an error has done:
    the pull log went to the log file, and the artifact file, directly in
    the artifacts directory, holds what the client saved. *)
Lemma archiveImage_Ret (ex : Packager.Exporter) (image : string) (dir : path)
    (logs : nat) (w w' : world) (r : string * string) :
  Packager.archiveImage ex image dir logs w = (Ret r, w') →
  ∃ pl rd,
    pull_of (Packager.Client ex) image = inr pl
    ∧ save_of (Packager.Client ex) image = inr rd
    ∧ read_err rd = None
    ∧ r = (Packager.buildFileName image +:+ ".tar", "tempchecksum")
    ∧ let wl := Spec.written logs (data pl) w in
      let p := dir ++ [Packager.buildFileName image +:+ ".tar"] in
      create true (fs wl) p = inr (<[p := File ""]> (fs wl))
      ∧ w' = World (<[p := File (data rd)]> (fs wl))
               (fds wl ++ [(p, String.length (data rd))])
               (trace w ++ [EvImagePull image true; EvImageSave image true;
                            EvClose (SavedImage image);
                            EvClose (PullLogs image)]).
Proof.
  unfold Packager.archiveImage. intros H.
  apply bind_Ret_inv in H as (pl & w1 & Hpull%on_error_Ret_inv & H).
  unfold ImagePull in Hpull.
  destruct (pull_of (Packager.Client ex) image) as [e | pl'] eqn:Hpl; [done|].
  injection Hpull as -> <-.
  apply defer_inv in H as (w2 & H & ->).
  rewrite (bind_Ret _ _ _ _ _ (ignore_error_CopyFrom _ _ _)) in H.
  apply bind_Ret_inv in H as (rd & w3 & Hsave & H).
  unfold ImageSave in Hsave.
  destruct (save_of (Packager.Client ex) image) as [e | rd'] eqn:Hrd; [done|].
  injection Hsave as -> <-.
  apply defer_inv in H as (w4 & H & ->).
  rewrite artifact_path in H.
  apply bind_Ret_inv in H as (out & w5 & Hcreate & H).
  apply Create_Ret_inv in Hcreate as (f & Hcreate & -> & ->).
  pose proof (create_true_insert _ _ _ Hcreate) as ->.
  simpl in Hcreate.
  apply bind_Ret_inv in H as ([] & w6 & Hcopy & H).
  unfold CopyFrom in Hcopy.
  rewrite (bind_Ret _ _ _ _ _ (Write_created _ _ _ _ _)) in Hcopy.
  destruct (read_err rd) as [e|] eqn:Herr; [done|].
  injection Hcopy as <-. injection H as <- <-.
  rewrite written_emit in *. simpl in *.
  exists pl, rd. repeat split; [done..|].
  unfold Close, emit; simpl. f_equal.
  by rewrite written_trace, <- !app_assoc.
Qed.

(** C6: when [archiveImage] archives reference [image], the name it returns
    is the reference with every [/] and every [:] replaced by [-], followed
    by [.tar]; joined to the artifacts directory this name is one more path
    component (no directory in between), and the file at that path holds the
    bytes the client saved for the reference. *)
Theorem archiveImage_artifact_location (ex : Packager.Exporter)
    (image : string) (artifactsDir : path) (logs : nat) (w w' : world)
    (name checksum : string) :
  Packager.archiveImage ex image artifactsDir logs w
  = (Ret (name, checksum), w') →
  name = Spec.artifact_name image
  ∧ Join artifactsDir name = artifactsDir ++ [name]
  ∧ ∃ saved, save_of (Packager.Client ex) image = inr saved
             ∧ fs w' !! (artifactsDir ++ [name]) = Some (File (data saved)).
Proof.
  intros (pl & rd & _ & Hrd & _ & [= -> ->] & _ & ->)%archiveImage_Ret.
  split; [|split].
  - unfold Spec.artifact_name. by rewrite buildFileName_bytes.
  - apply artifact_path.
  - exists rd. split; [done|]. simpl. apply lookup_insert_eq.
Qed.

Lemma archiveImage_artifact_location_witness :
  let ex := Examples.exporter "bundle.cnab" false Examples.app in
  let name := "library-postgres-12.tar" in
  ∃ w',
    Packager.archiveImage ex "library/postgres:12" ["work"; "artifacts"] 0
      Examples.prepared
    = (Ret (name, "tempchecksum"), w')
    ∧ (name = Spec.artifact_name "library/postgres:12"
       ∧ Join ["work"; "artifacts"] name = ["work"; "artifacts"] ++ [name]
       ∧ ∃ saved,
           save_of (Packager.Client ex) "library/postgres:12" = inr saved
           ∧ fs w' !! (["work"; "artifacts"] ++ [name])
             = Some (File (data saved))).
Proof.
  eexists. split.
  - vm_compute. reflexivity.
  - eapply (archiveImage_artifact_location
              (Examples.exporter "bundle.cnab" false Examples.app)
              "library/postgres:12" ["work"; "artifacts"] 0 Examples.prepared).
    vm_compute. reflexivity.
Defined.

(** ** Loops *)

Lemma for_range_app {A B} (body : A → M B) (l1 l2 : list A) (w : world) :
  for_range body (l1 ++ l2) w
  = bind (for_range body l1)
         (λ ys1, bind (for_range body l2) (λ ys2, ret (ys1 ++ ys2))) w.
Proof.
  revert w. induction l1 as [|x l1 IH]; intros w; simpl.
  - unfold bind, ret. by destruct (for_range body l2 w) as [[ys | e | msg] w1].
  - unfold bind, ret in *.
    destruct (body x w) as [[y | e | msg] w1]; [|done..].
    rewrite IH.
    destruct (for_range body l1 w1) as [[ys1 | e | msg] w2]; [|done..].
    by destruct (for_range body l2 w2) as [[ys2 | e | msg] w3].
Qed.

(** A loop whose body calls [f] on a projection of the element and then
    builds the element to keep runs [f] over the projections. *)
Lemma for_range_project {A B C D} (g : A → C) (f : C → M D) (h : A → D → B)
    (l : list A) (w : world) :
  for_range (λ x, bind (f (g x)) (λ r, ret (h x r))) l w
  = bind (for_range f (g <$> l)) (λ rs, ret (zip_with h l rs)) w.
Proof.
  revert w. induction l as [|x l IH]; intros w; [done|]. csimpl.
  unfold bind, ret in *.
  destruct (f (g x) w) as [[r | e | msg] w1]; [|done..].
  rewrite IH.
  by destruct (for_range f (g <$> l) w1) as [[rs | e | msg] w2].
Qed.

Lemma for_range_app_bind {A B C} (body : A → M B) (l1 l2 : list A)
    (k : list B → M C) (w : world) :
  bind (for_range body (l1 ++ l2)) k w
  = bind (for_range body l1)
         (λ ys1, bind (for_range body l2) (λ ys2, k (ys1 ++ ys2))) w.
Proof.
  unfold bind at 1. rewrite for_range_app. unfold bind, ret.
  destruct (for_range body l1 w) as [[ys1 | e | msg] w1]; [|done..].
  by destruct (for_range body l2 w1) as [[ys2 | e | msg] w2].
Qed.

Lemma for_range_project_bind {A B C D E} (g : A → C) (f : C → M D)
    (h : A → D → B) (l : list A) (k : list B → M E) (w : world) :
  bind (for_range (λ x, bind (f (g x)) (λ r, ret (h x r))) l) k w
  = bind (for_range f (g <$> l)) (λ rs, k (zip_with h l rs)) w.
Proof.
  unfold bind at 1. rewrite for_range_project. unfold bind, ret.
  by destruct (for_range f (g <$> l) w) as [[rs | e | msg] w1].
Qed.

Lemma for_range_length {A B} (body : A → M B) (l : list A) (w w' : world)
    (ys : list B) :
  for_range body l w = (Ret ys, w') → length ys = length l.
Proof.
  revert w w' ys. induction l as [|x l IH]; intros w w' ys; simpl.
  - by intros [= <- _].
  - intros (y & w1 & _ & (ys' & w2 & Hl & [= <- _])%bind_Ret_inv)%bind_Ret_inv.
    simpl. by rewrite (IH _ _ _ Hl).
Qed.

(** The loop stops at the first element whose body returns an error: what
    comes after that element plays no part. *)
Lemma for_range_fail_at {A B} (body : A → M B) (pre post : list A) (x : A)
    (w w1 w2 : world) (ys : list B) (e : error) :
  for_range body pre w = (Ret ys, w1) →
  body x w1 = (Fail e, w2) →
  for_range body (pre ++ x :: post) w = (Fail e, w2).
Proof.
  intros Hpre Hx. rewrite for_range_app.
  rewrite (bind_Ret _ _ _ _ _ Hpre). simpl.
  unfold bind at 1 2. by rewrite Hx.
Qed.

(** ** [prepareArtifacts] *)

Lemma artifacts_dir (archiveDir : path) :
  Join archiveDir "artifacts" = archiveDir ++ ["artifacts"].
Proof. by apply Join_plain; [|simpl; lia]. Qed.

(** [prepareArtifacts] makes the artifacts directory, archives the
    references one after the other and writes the checksums back. *)
Lemma prepareArtifacts_references (ex : Packager.Exporter) (bun : Bundle)
    (archiveDir : path) (logs : nat) (w : world) :
  Packager.prepareArtifacts ex bun archiveDir logs w
  = bind (MkdirAll (archiveDir ++ ["artifacts"]))
      (λ _, bind (for_range
                    (λ ref, Packager.archiveImage ex ref
                              (archiveDir ++ ["artifacts"]) logs)
                    (Spec.references bun))
              (λ rs, ret (Spec.with_digests bun (snd <$> rs)))) w.
Proof.
  unfold Packager.prepareArtifacts. rewrite artifacts_dir.
  apply bind_ext. intros _ w1 _.
  unfold Spec.references. rewrite for_range_app_bind.
  rewrite (for_range_project_bind
             (λ entry : string * Image, Image_Image entry.2)
             (λ ref, Packager.archiveImage ex ref
                       (archiveDir ++ ["artifacts"]) logs)
             (λ (entry : string * Image) (r : string * string),
                (entry.1, {| Image_Image := Image_Image entry.2;
                             Image_Digest := r.2 |}))).
  apply bind_ext. intros rs1 w2 H1.
  rewrite (for_range_project_bind Inv_Image
             (λ ref, Packager.archiveImage ex ref
                       (archiveDir ++ ["artifacts"]) logs)
             (λ (in_ : InvocationImage) (r : string * string),
                {| Inv_Image := Inv_Image in_; Inv_Digest := r.2 |})).
  apply bind_ext. intros rs2 w3 _.
  apply for_range_length in H1. rewrite length_fmap in H1.
  unfold Spec.with_digests, ret. do 2 f_equal.
  rewrite fmap_app. f_equal.
  - rewrite zip_with_app_r, length_fmap, H1.
    rewrite take_ge, drop_ge by done. simpl.
    by rewrite app_nil_r, zip_with_fmap_r.
  - rewrite drop_app_length' by (by rewrite length_fmap).
    by rewrite zip_with_fmap_r.
Qed.

Lemma fmap_zip_with_left {A B C D} (f : A → B → C) (g : C → D) (g' : A → D)
    (l : list A) (k : list B) :
  (∀ x y, g (f x y) = g' x) → length l ≤ length k →
  g <$> zip_with f l k = g' <$> l.
Proof.
  intros Hg. revert k. induction l as [|x l IH]; intros [|y k] Hlen;
    simpl in *; [done | done | lia |].
  csimpl. rewrite Hg, IH; [done | lia].
Qed.

Lemma fmap_zip_with_right {A B C} (f : A → B → C) (g : C → B)
    (l : list A) (k : list B) :
  (∀ x y, g (f x y) = y) →
  g <$> zip_with f l k = take (length l) k.
Proof.
  intros Hg. revert k. induction l as [|x l IH]; intros [|y k];
    simpl in *; [done..|].
  csimpl. by rewrite Hg, IH.
Qed.

Lemma references_with_digests (b : Bundle) (sums : list string) :
  length sums = length (Spec.references b) →
  Spec.references (Spec.with_digests b sums) = Spec.references b
  ∧ Spec.digests (Spec.with_digests b sums) = sums.
Proof.
  unfold Spec.references, Spec.digests, Spec.with_digests. simpl.
  rewrite length_app, !length_fmap. intros Hlen. split.
  - f_equal; apply fmap_zip_with_left; try done; [lia|].
    rewrite length_drop. lia.
  - rewrite !fmap_zip_with_right by done.
    rewrite (take_ge (drop _ _)) by (rewrite length_drop; lia).
    apply take_drop.
Qed.

(** Every call of [archiveImage] that ends without an error reports the
    same placeholder checksum. *)
Lemma for_range_archiveImage_sums (ex : Packager.Exporter) (dir : path)
    (logs : nat) (refs : list string) (w w' : world)
    (rs : list (string * string)) :
  for_range (λ ref, Packager.archiveImage ex ref dir logs) refs w
  = (Ret rs, w') →
  rs.*2 = replicate (length refs) "tempchecksum".
Proof.
  revert w w' rs. induction refs as [|ref refs IH]; intros w w' rs; simpl.
  - by intros [= <- _].
  - intros (r & w1 & Hr & (rs' & w2 & Hrs & [= <- _])%bind_Ret_inv)%bind_Ret_inv.
    apply archiveImage_Ret in Hr as (_ & _ & _ & _ & _ & -> & _).
    csimpl. by rewrite (IH _ _ _ Hrs).
Qed.



(** ** Which calls a step makes *)

Lemma Create_trace (p : path) (w w' : world) (r : result nat) :
  Create p w = (r, w') → trace w' = trace w.
Proof. unfold Create. intros. by run_all. Qed.

Lemma OpenFile_trace (p : path) (w w' : world) (r : result nat) :
  OpenFile p w = (r, w') → trace w' = trace w.
Proof. unfold OpenFile. intros. by run_all. Qed.

Lemma Open_trace (p : path) (w w' : world) (r : result nat) :
  Open p w = (r, w') → trace w' = trace w.
Proof. unfold Open. intros. by run_all. Qed.

Lemma Write_trace (fd : nat) (bytes : string) (w w' : world)
    (r : result unit) :
  Write fd bytes w = (r, w') → trace w' = trace w.
Proof. unfold Write. intros. by run_all. Qed.

Lemma Copy_trace (dst src : nat) (w w' : world) (r : result unit) :
  Copy dst src w = (r, w') → trace w' = trace w.
Proof. unfold Copy, bind, ReadAll, Write. intros. by run_all. Qed.

Lemma MkdirAll_trace (p : path) (w w' : world) (r : result unit) :
  MkdirAll p w = (r, w') → trace w' = trace w.
Proof. unfold MkdirAll. intros. by run_all. Qed.

Lemma WriteFile_trace (p : path) (bytes : string) (w w' : world)
    (r : result unit) :
  WriteFile p bytes w = (r, w') → trace w' = trace w.
Proof. unfold WriteFile. intros. by run_all. Qed.

Lemma CreateNamed_trace (cwd : path) (name : string) (w w' : world)
    (r : result nat) :
  CreateNamed cwd name w = (r, w') → trace w' = trace w.
Proof. unfold CreateNamed, on_error, Create. intros. by run_all. Qed.

Lemma OpenNamed_trace (cwd : path) (name : string) (w w' : world)
    (r : result nat) :
  OpenNamed cwd name w = (r, w') → trace w' = trace w.
Proof. unfold OpenNamed, on_error, Open. intros. by run_all. Qed.

Lemma Stat_trace (cwd : path) (name : string) (w w' : world)
    (r : result (option node * option error)) :
  Stat cwd name w = (r, w') → trace w' = trace w.
Proof. unfold Stat. intros. by run_all. Qed.

(** However [archiveImage] ends, it has only talked to the Docker client. *)
Lemma archiveImage_trace (ex : Packager.Exporter) (image : string)
    (dir : path) (logs : nat) (w w' : world) (r : result (string * string)) :
  Packager.archiveImage ex image dir logs w = (r, w') →
  ∃ t, trace w' = trace w ++ t ∧ Forall Spec.docker_event t.
Proof.
  unfold Packager.archiveImage, bind, defer, on_error, ignore_error, CopyFrom,
    bind, ImagePull, ImageSave, Create, Write, Close, emit, ret, fail.
  intros H. run_all;
    (eexists; split; [rewrite <- ?app_assoc; reflexivity|];
     repeat constructor).
Qed.

Lemma for_range_archiveImage_trace (ex : Packager.Exporter) (dir : path)
    (logs : nat) (refs : list string) (w w' : world)
    (r : result (list (string * string))) :
  for_range (λ ref, Packager.archiveImage ex ref dir logs) refs w = (r, w') →
  ∃ t, trace w' = trace w ++ t ∧ Forall Spec.docker_event t.
Proof.
  revert w w' r. induction refs as [|ref refs IH]; intros w w' r; simpl.
  - intros [= _ <-]. exists []. by rewrite app_nil_r.
  - intros [(a & w1 & H1 & H2) | [(e & H1 & _) | (msg & H1 & _)]]%bind_inv;
      [|by eapply archiveImage_trace..].
    apply archiveImage_trace in H1 as (t1 & Ht1 & Hd1).
    apply bind_inv in H2
        as [(rs & w2 & H2 & [= _ <-]) | [(e & H2 & _) | (msg & H2 & _)]];
      apply IH in H2 as (t2 & Ht2 & Hd2); exists (t1 ++ t2);
      (split; [by rewrite Ht2, Ht1, app_assoc | by apply Forall_app]).
Qed.

(** ** [Export]: an image that cannot be archived *)

Lemma under_remove_all (f : gmap path node) (d : path) :
  Spec.under d (remove_all f d) = ∅.
Proof.
  apply map_eq. intros q. rewrite lookup_empty.
  apply map_lookup_filter_None. destruct (remove_all f d !! q) eqn:Hq; [|by left].
  right. intros x _ Hprefix.
  by apply map_lookup_filter_Some in Hq as [_ Hnot].
Qed.

(** ** The part of the file system below a directory *)

Lemma under_lookup (d q : path) (f : gmap path node) :
  d `prefix_of` q → Spec.under d f !! q = f !! q.
Proof.
  intros Hq. unfold Spec.under. destruct (f !! q) as [n|] eqn:Hf.
  - by apply map_lookup_filter_Some.
  - apply map_lookup_filter_None. by left.
Qed.

Lemma under_lookup_out (d q : path) (f : gmap path node) :
  ¬ d `prefix_of` q → Spec.under d f !! q = None.
Proof.
  intros Hq. apply map_lookup_filter_None. right. by intros n _.
Qed.

Lemma under_insert_in (d q : path) (n : node) (f : gmap path node) :
  d `prefix_of` q → Spec.under d (<[q := n]> f) = <[q := n]> (Spec.under d f).
Proof. intros Hq. by apply map_filter_insert_True. Qed.

Lemma under_insert_out (d q : path) (n : node) (f : gmap path node) :
  ¬ d `prefix_of` q → Spec.under d (<[q := n]> f) = Spec.under d f.
Proof. intros Hq. by apply map_filter_insert_not. Qed.

Lemma under_empty (d : path) (f : gmap path node) :
  (∀ q, d `prefix_of` q → f !! q = None) → Spec.under d f = ∅.
Proof.
  intros H. apply map_eq. intros q. rewrite lookup_empty.
  destruct (decide (d `prefix_of` q)) as [Hq|Hq].
  - rewrite under_lookup by done. by apply H.
  - by apply under_lookup_out.
Qed.

Lemma under_empty_inv (d : path) (f : gmap path node) :
  Spec.under d f = ∅ → ∀ q, d `prefix_of` q → f !! q = None.
Proof.
  intros H q Hq. rewrite <- (under_lookup d) by done. by rewrite H.
Qed.

Lemma under_write_at_out (d p : path) (off : nat) (bytes : string)
    (f : gmap path node) :
  ¬ d `prefix_of` p → Spec.under d (write_at f p off bytes) = Spec.under d f.
Proof.
  intros Hp. unfold write_at.
  destruct bytes as [|c s]; [done|]. destruct (f !! p) as [[|old]|]; [done| |done].
  by apply under_insert_out.
Qed.

Lemma prefix_antisym (a q : path) :
  a `prefix_of` q → q `prefix_of` a → q = a.
Proof.
  intros H1 H2. symmetry. apply prefix_length_eq; [done|].
  by apply prefix_length.
Qed.

Lemma prefix_snoc_inv (a q : path) (x : string) :
  a `prefix_of` q → q `prefix_of` a ++ [x] → q = a ∨ q = a ++ [x].
Proof.
  intros [k ->] [k' Hk]. rewrite <- app_assoc in Hk.
  apply app_inv_head in Hk. destruct k as [|y k].
  - left. by rewrite app_nil_r.
  - right. destruct k as [|z k]; simpl in Hk.
    + by injection Hk as ->.
    + by injection Hk as _ ?.
Qed.

(** ** [os.MkdirAll] *)

Lemma mkdir_from_target (f f' : gmap path node) (cur : path)
    (rest : list string) :
  mkdir_from f cur rest = inr f' → cur ++ rest ≠ [] →
  f' !! (cur ++ rest) = Some Dir.
Proof.
  revert f cur. induction rest as [|c rest IH]; intros f cur; simpl.
  - rewrite app_nil_r. intros H Hne.
    destruct cur as [|c0 cur]; [done|]. simpl in H.
    destruct (f !! (c0 :: cur)) as [[|d]|] eqn:Hf; simplify_eq; [done|].
    apply lookup_insert_eq.
  - intros H _. destruct (lookup_node f cur) as [[|d]|]; [|done|];
      apply IH in H; rewrite <- ?app_assoc in H; try done;
      by destruct cur.
Qed.

Lemma mkdir_from_frame (f f' : gmap path node) (cur : path)
    (rest : list string) (q : path) :
  mkdir_from f cur rest = inr f' →
  ¬ (cur `prefix_of` q ∧ q `prefix_of` cur ++ rest) →
  f' !! q = f !! q.
Proof.
  revert f cur. induction rest as [|c rest IH]; intros f cur; simpl.
  - intros H Hq. assert (q ≠ cur) as Hne.
    { intros ->. apply Hq. split; [done|]. by apply prefix_app_r. }
    destruct (lookup_node f cur) as [[|d]|]; simplify_eq; [done|].
    by apply lookup_insert_ne.
  - intros H Hq. assert (q ≠ cur) as Hne.
    { intros ->. apply Hq. split; [done|]. by apply prefix_app_r. }
    assert (¬ (cur ++ [c] `prefix_of` q
               ∧ q `prefix_of` (cur ++ [c]) ++ rest)) as Hq'.
    { intros [H1 H2]. apply Hq. split.
      - by eapply prefix_app_l.
      - by rewrite <- app_assoc in H2. }
    destruct (lookup_node f cur) as [[|d]|]; [|done|];
      rewrite (IH _ _ H Hq'); [done|].
    by apply lookup_insert_ne.
Qed.

Lemma mkdir_from_keeps (f f' : gmap path node) (cur : path)
    (rest : list string) (q : path) (n : node) :
  mkdir_from f cur rest = inr f' → f !! q = Some n → f' !! q = Some n.
Proof.
  revert f cur. induction rest as [|c rest IH]; intros f cur; simpl.
  - intros H Hq. destruct (lookup_node f cur) as [[|d]|] eqn:Hcur;
      simplify_eq; [done|].
    rewrite lookup_insert_ne; [done|]. intros ->. destruct q; [done|].
    simpl in Hcur. congruence.
  - intros H Hq. destruct (lookup_node f cur) as [[|d]|] eqn:Hcur; [|done|].
    + by eapply IH.
    + eapply IH; [done|]. rewrite lookup_insert_ne; [done|].
      intros ->. destruct q; [done|]. simpl in Hcur. congruence.
Qed.

(** A regular file on the way makes [os.MkdirAll] fail. *)
Lemma mkdir_from_file (f : gmap path node) (cur : path) (rest : list string)
    (q : path) (d : string) :
  f !! q = Some (File d) → q ≠ [] →
  cur `prefix_of` q → q `prefix_of` cur ++ rest →
  ∃ e, mkdir_from f cur rest = inl e.
Proof.
  revert f cur. induction rest as [|c rest IH]; intros f cur Hq Hne H1 H2.
  - rewrite app_nil_r in H2. assert (q = cur) as -> by by apply prefix_antisym.
    simpl. destruct cur; [done|]. simpl. rewrite Hq. eauto.
  - simpl. destruct (decide (q = cur)) as [->|Hcur].
    { destruct cur; [done|]. simpl. rewrite Hq. eauto. }
    assert (cur ++ [c] `prefix_of` q) as H1'.
    { destruct H1 as [k ->]. destruct H2 as [k' Hk].
      rewrite <- app_assoc in Hk. apply app_inv_head in Hk.
      destruct k as [|y k]; [by rewrite app_nil_r in Hcur|].
      injection Hk as -> _. exists k. by rewrite <- app_assoc. }
    destruct (lookup_node f cur) as [[|d']|]; [|eauto|].
    + apply IH; [done..|]. by rewrite <- app_assoc.
    + apply IH; [|done..|by rewrite <- app_assoc].
      by rewrite lookup_insert_ne.
Qed.

(** ** Paths the exporter makes up *)

Lemma Split_append_last (s t : string) (sep : ascii) :
  ContainsByte t sep = false →
  ∃ l x, Split (s +:+ t) sep = l ++ [x +:+ t].
Proof.
  intros Ht. induction s as [|c s (l & x & IH)].
  - exists [], "". by rewrite append_empty_l, Split_no_separator.
  - rewrite append_cons. simpl. rewrite IH.
    destruct (Ascii.eqb c sep).
    + by exists ("" :: l), x.
    + destruct l as [|y l]; simpl.
      * by exists [], (String c x).
      * by exists (String c y :: l), x.
Qed.

Lemma resolve_snoc (base : path) (l : list string) (z : string) :
  3 ≤ String.length z → resolve base (l ++ [z]) = resolve base l ++ [z].
Proof.
  intros Hz. unfold resolve. rewrite foldl_snoc. by apply step_plain.
Qed.

Lemma staging_snoc (cwd : path) (bun : Bundle) :
  ∃ p x, Spec.staging cwd bun = p ++ [x].
Proof.
  unfold Spec.staging, Abs.
  destruct (Split_append_last (Name bun +:+ "-" +:+ Version bun) "-export" "/")
    as (l & x & ->); [done|].
  eexists _, _. apply resolve_snoc. rewrite length_append. simpl. lia.
Qed.

Lemma staging_nonempty (cwd : path) (bun : Bundle) :
  Spec.staging cwd bun ≠ [].
Proof.
  destruct (staging_snoc cwd bun) as (p & x & ->). by destruct p.
Qed.

Lemma bundlefile_path (dir : path) (ex : Packager.Exporter) :
  Join dir (Spec.bundlefile ex) = dir ++ [Spec.bundlefile ex].
Proof.
  unfold Spec.bundlefile.
  destruct (Packager.Unsigned ex); by apply Join_plain; [|simpl; lia].
Qed.

(** ** Walking down a path *)

Lemma prefix_next (cur q : path) (c : string) (rest : list string) :
  cur `prefix_of` q → q `prefix_of` cur ++ c :: rest →
  q = cur ∨ cur ++ [c] `prefix_of` q.
Proof.
  intros [k ->] [k' Hk]. rewrite <- app_assoc in Hk.
  apply app_inv_head in Hk. destruct k as [|y k].
  - left. by rewrite app_nil_r.
  - right. injection Hk as -> _. exists k. by rewrite <- app_assoc.
Qed.

Lemma walk_exists (f : gmap path node) (cur : path) (rest : list string)
    (n : node) (q : path) :
  walk f cur rest = inr n →
  cur `prefix_of` q → q `prefix_of` cur ++ rest →
  is_Some (lookup_node f q).
Proof.
  revert cur. induction rest as [|c rest IH]; intros cur; simpl.
  - rewrite app_nil_r. intros H H1 H2.
    assert (q = cur) as -> by by apply prefix_antisym.
    destruct (lookup_node f cur); [eauto|done].
  - intros H H1 H2.
    destruct (lookup_node f cur) as [[|d]|] eqn:Hcur; [|done..].
    destruct (prefix_next _ _ _ _ H1 H2) as [->|H1']; [eauto|].
    eapply IH; [done..|]. by rewrite <- app_assoc.
Qed.

Lemma walk_result (f : gmap path node) (cur : path) (rest : list string)
    (n : node) :
  walk f cur rest = inr n → lookup_node f (cur ++ rest) = Some n.
Proof.
  revert cur. induction rest as [|c rest IH]; intros cur; simpl.
  - rewrite app_nil_r. by destruct (lookup_node f cur); intros [= ->].
  - destruct (lookup_node f cur) as [[|d]|]; [|done..].
    intros H%IH. by rewrite <- app_assoc in H.
Qed.

(** A file cannot be made below a directory that does not exist. *)
Lemma create_at_or_outside (trunc : bool) (f f' : gmap path node)
    (p d : path) :
  create trunc f p = inr f' →
  (∀ q, d `prefix_of` q → f !! q = None) → d ≠ [] →
  d `prefix_of` p → p = d.
Proof.
  intros (Hp & Hstat & _)%create_inr Hfresh Hd [k ->].
  destruct k as [|x k] using rev_ind; [by rewrite app_nil_r|].
  clear IHk. rewrite app_assoc, removelast_last in Hstat.
  destruct (walk_exists _ _ _ _ d Hstat) as [n Hn].
  - apply prefix_nil.
  - simpl. by exists k.
  - destruct d; [done|]. simpl in Hn. rewrite Hfresh in Hn; done.
Qed.

(** ** Open files *)

Lemma fds_kept_refl (w : world) : Spec.fds_kept w w.
Proof. by intros fd p. Qed.

Lemma fds_kept_trans (w1 w2 w3 : world) :
  Spec.fds_kept w1 w2 → Spec.fds_kept w2 w3 → Spec.fds_kept w1 w3.
Proof. intros H12 H23 fd p H. by apply H23, H12. Qed.

Lemma fds_kept_app (f f' : gmap path node) (tab more : list (path * nat))
    (t t' : list event) :
  Spec.fds_kept (World f tab t) (World f' (tab ++ more) t').
Proof.
  intros fd p. unfold Spec.fd_path. simpl.
  destruct (tab !! fd) as [e|] eqn:Hfd; [|done].
  by rewrite (lookup_app_l_Some _ _ _ _ Hfd).
Qed.

Lemma fds_kept_insert (f f' : gmap path node) (tab : list (path * nat))
    (t t' : list event) (fd : nat) (p : path) (off off' : nat) :
  tab !! fd = Some (p, off) →
  Spec.fds_kept (World f tab t) (World f' (<[fd := (p, off')]> tab) t').
Proof.
  intros Hfd fd' p'. unfold Spec.fd_path. simpl.
  destruct (decide (fd' = fd)) as [->|Hne].
  - rewrite Hfd. rewrite list_lookup_insert_eq; [done|].
    by eapply lookup_lt_Some.
  - by rewrite list_lookup_insert_ne.
Qed.

Lemma Create_fds_kept (p : path) (w w' : world) (r : result nat) :
  Create p w = (r, w') → Spec.fds_kept w w'.
Proof.
  unfold Create. intros. run_all; [apply fds_kept_refl|].
  destruct w. apply fds_kept_app.
Qed.

Lemma OpenFile_fds_kept (p : path) (w w' : world) (r : result nat) :
  OpenFile p w = (r, w') → Spec.fds_kept w w'.
Proof.
  unfold OpenFile. intros. run_all; [apply fds_kept_refl|].
  destruct w. apply fds_kept_app.
Qed.

Lemma Open_fds_kept (p : path) (w w' : world) (r : result nat) :
  Open p w = (r, w') → Spec.fds_kept w w'.
Proof.
  unfold Open. intros. run_all; [apply fds_kept_refl|].
  destruct w. apply fds_kept_app.
Qed.

Lemma CreateNamed_fds_kept (cwd : path) (name : string) (w w' : world)
    (r : result nat) :
  CreateNamed cwd name w = (r, w') → Spec.fds_kept w w'.
Proof.
  unfold CreateNamed, on_error.
  destruct (namei true (fs w) cwd name) as [e|q];
    [intros [= _ <-]; apply fds_kept_refl|].
  destruct (Create q w) as [r0 w0] eqn:H. apply Create_fds_kept in H.
  by destruct r0; intros [= _ <-].
Qed.

Lemma OpenNamed_fds_kept (cwd : path) (name : string) (w w' : world)
    (r : result nat) :
  OpenNamed cwd name w = (r, w') → Spec.fds_kept w w'.
Proof.
  unfold OpenNamed, on_error.
  destruct (namei false (fs w) cwd name) as [e|q];
    [intros [= _ <-]; apply fds_kept_refl|].
  destruct (Open q w) as [r0 w0] eqn:H. apply Open_fds_kept in H.
  by destruct r0; intros [= _ <-].
Qed.

Lemma Write_fds_kept (fd : nat) (bytes : string) (w w' : world)
    (r : result unit) :
  Write fd bytes w = (r, w') → Spec.fds_kept w w'.
Proof.
  unfold Write. intros. run_all; [|apply fds_kept_refl].
  destruct w. by eapply fds_kept_insert.
Qed.

Lemma ReadAll_fds_kept (fd : nat) (w w' : world) (r : result string) :
  ReadAll fd w = (r, w') → Spec.fds_kept w w'.
Proof.
  unfold ReadAll. intros. run_all; try apply fds_kept_refl.
  destruct w. by eapply fds_kept_insert.
Qed.

Lemma MkdirAll_fds_kept (p : path) (w w' : world) (r : result unit) :
  MkdirAll p w = (r, w') → Spec.fds_kept w w'.
Proof. unfold MkdirAll. intros. run_all; by intros fd q. Qed.

Lemma written_fds_kept (fd : nat) (bytes : string) (w : world) :
  Spec.fds_kept w (Spec.written fd bytes w).
Proof.
  unfold Spec.written. destruct (Write fd bytes w) as [r w'] eqn:H.
  by eapply Write_fds_kept.
Qed.

(** [os.MkdirAll] on a path that is a directory already: no error, no
    change. *)
Lemma mkdir_from_existing (f : gmap path node) (cur : path)
    (rest : list string) :
  walk f cur rest = inr Dir → mkdir_from f cur rest = inr f.
Proof.
  revert cur. induction rest as [|c rest IH]; intros cur; simpl.
  - by destruct (lookup_node f cur) as [[|d]|].
  - destruct (lookup_node f cur) as [[|d]|]; [|done..]. apply IH.
Qed.

Lemma MkdirAll_existing (p : path) (w : world) :
  stat (fs w) p = inr Dir → MkdirAll p w = (Ret tt, w).
Proof.
  intros H. unfold MkdirAll, mkdir_all.
  rewrite (mkdir_from_existing _ _ _ H). by destruct w.
Qed.

(** ** What the steps of a thick export stage *)

Lemma written_under (d : path) (fd : nat) (bytes : string) (w : world)
    (l : path) :
  Spec.fd_path w fd = Some l → ¬ d `prefix_of` l →
  Spec.under d (fs (Spec.written fd bytes w)) = Spec.under d (fs w).
Proof.
  unfold Spec.fd_path, Spec.written, Write. intros Hfd Hl.
  destruct (fds w !! fd) as [[p off]|]; [|done]. simpl in *.
  injection Hfd as ->. by apply under_write_at_out.
Qed.

Lemma archiveImage_under (ex : Packager.Exporter) (image : string)
    (dir d l : path) (logs : nat) (w w' : world) (r : string * string) :
  Packager.archiveImage ex image dir logs w = (Ret r, w') →
  Spec.fd_path w logs = Some l → ¬ d `prefix_of` l → d `prefix_of` dir →
  Spec.under d (fs w')
  = <[dir ++ [Spec.artifact_name image]
      := File (Spec.saved_bytes (Packager.Client ex) image)]>
      (Spec.under d (fs w))
  ∧ Spec.fds_kept w w'.
Proof.
  intros (pl & rd & _ & Hrd & _ & _ & _ & ->)%archiveImage_Ret Hfd Hl Hdir.
  simpl. split.
  - rewrite under_insert_in by by apply prefix_app_r.
    rewrite (written_under _ _ _ _ _ Hfd Hl).
    unfold Spec.saved_bytes, Spec.artifact_name.
    by rewrite Hrd, buildFileName_bytes.
  - apply (fds_kept_trans _ (Spec.written logs (data pl) w));
      [apply written_fds_kept|].
    destruct (Spec.written logs (data pl) w). simpl. apply fds_kept_app.
Qed.

Lemma for_range_archiveImage_under (ex : Packager.Exporter) (dir d l : path)
    (logs : nat) (refs : list string) (w w' : world)
    (rs : list (string * string)) :
  for_range (λ ref, Packager.archiveImage ex ref dir logs) refs w
  = (Ret rs, w') →
  Spec.fd_path w logs = Some l → ¬ d `prefix_of` l → d `prefix_of` dir →
  Spec.under d (fs w')
  = Spec.with_artifacts (Packager.Client ex) dir refs (Spec.under d (fs w))
  ∧ Spec.fds_kept w w'.
Proof.
  intros H Hfd Hl Hdir. revert w rs H Hfd.
  induction refs as [|ref refs IH]; intros w rs; simpl.
  - intros [= _ <-] _. split; [done|apply fds_kept_refl].
  - intros (r & w1 & Hr & (rs' & w2 & Hrs & Hret)%bind_Ret_inv)%bind_Ret_inv
           Hfd.
    injection Hret as _ <-.
    destruct (archiveImage_under _ _ _ _ _ _ _ _ _ Hr Hfd Hl Hdir)
      as [Hu1 Hk1].
    destruct (IH _ _ Hrs (Hk1 _ _ Hfd)) as [Hu2 Hk2].
    split; [|by eapply fds_kept_trans].
    by rewrite Hu2, Hu1.
Qed.

(** [writeBundle], when it returns without an error, has written one file:
    the output file. *)
Lemma writeBundle_Ret (cwd : path) (Key : Type)
    (LoadKeyRing : gmap path node → path → error + list Key)
    (KeyRing_Key : list Key → string → error + Key)
    (Clearsign : Key → Bundle → string * option error)
    (bf : Bundle) (signer secretKeyRing : string) (outputFile : path)
    (w w' : world) :
  Packager.writeBundle cwd Key LoadKeyRing KeyRing_Key Clearsign bf signer
    secretKeyRing outputFile w = (Ret tt, w') →
  ∃ signed, fs w' = <[outputFile := File signed]> (fs w) ∧ fds w' = fds w.
Proof.
  unfold Packager.writeBundle, bind, on_error, fail, ret, panic, WriteFile,
    emit, set_fs.
  intros H. run_all;
    match goal with
    | H : create true _ _ = inr _ |- _ =>
        apply create_true_insert in H as ->
    end;
    eexists; (split; [apply insert_insert_eq | done]).
Qed.

(** Staging the descriptor: the descriptor file is made, if it is not
    there, and written from its start. *)
Lemma stage_descriptor (src p : path) (w w' : world) :
  bind (Open src) (λ from, bind (OpenFile p) (λ to, Copy to from)) w
  = (Ret tt, w') →
  ∃ f bytes, create false (fs w) p = inr f
             ∧ fs w' = write_at f p 0 bytes
             ∧ (∀ c, lookup_node f src = Some (File c) → bytes = c)
             ∧ Spec.fds_kept w w'.
Proof.
  intros (from & w1 & Hopen & (to & w2 & Hto & Hcopy)%bind_Ret_inv)%bind_Ret_inv.
  unfold Open in Hopen.
  destruct (stat (fs w) src) as [e|n]; [done|]. injection Hopen as <- <-.
  unfold OpenFile in Hto. simpl in Hto.
  destruct (create false (fs w) p) as [e|f] eqn:Hcreate; [done|].
  injection Hto as <- <-.
  unfold Copy in Hcopy.
  apply bind_Ret_inv in Hcopy as (bytes & w3 & Hread & Hwrite).
  assert (fs w3 = f
          ∧ (∀ c, lookup_node f src = Some (File c) → bytes = c)
          ∧ ∃ off, fds w3 = <[length (fds w) := (src, off)]>
                              ((fds w ++ [(src, 0)]) ++ [(p, 0)]))
    as (Hf & Hbytes & Htab).
  { unfold ReadAll in Hread. simpl in Hread.
    rewrite lookup_app_l, lookup_app_r, Nat.sub_diag in Hread;
      [|done|rewrite length_app; simpl; lia].
    simpl in Hread. destruct (lookup_node f src) as [[|d]|]; [done|..];
      injection Hread as <- <-; simpl; (split; [done|]).
    - split; [by intros c [= ->]|]. eauto.
    - split; [done|]. exists 0. rewrite list_insert_id; [done|].
      by rewrite lookup_app_l, lookup_app_r, Nat.sub_diag;
        [|done|rewrite length_app; simpl; lia]. }
  destruct Htab as [off Htab].
  unfold Write in Hwrite. rewrite Htab, Hf in Hwrite.
  rewrite list_lookup_insert_ne, lookup_app_r in Hwrite;
    [|rewrite length_app; simpl; lia..].
  rewrite length_app in Hwrite. simpl in Hwrite.
  replace (length (fds w) + 1 - (length (fds w) + 1)) with 0 in Hwrite by lia.
  simpl in Hwrite. injection Hwrite as <-.
  exists f, bytes. split; [done|]. split; [done|]. split; [done|].
  intros fd q. unfold Spec.fd_path. simpl. intros Hfd.
  destruct (fds w !! fd) as [[q' o]|] eqn:Hq; [|done].
  simpl in Hfd. injection Hfd as ->.
  pose proof (lookup_lt_Some _ _ _ Hq) as Hlt.
  rewrite list_lookup_insert_ne by lia.
  destruct (decide (fd = length (fds w))) as [->|Hne]; [lia|].
  rewrite list_lookup_insert_ne by done.
  by rewrite !lookup_app_l, Hq by (rewrite ?length_app; simpl; lia).
Qed.

(** Making a directory at or below [d], when all that lies between [d] and
    the new directory is there: below [d], the new directory is all that
    changes. *)
Lemma mkdir_all_under (f f' : gmap path node) (d p : path) :
  mkdir_all f p = inr f' → d `prefix_of` p → p ≠ [] →
  (∀ q, d `prefix_of` q → q `prefix_of` p → q ≠ p → is_Some (f !! q)) →
  Spec.under d f' = <[p := Dir]> (Spec.under d f).
Proof.
  unfold mkdir_all. intros Hmk Hd Hp Hbetween. apply map_eq. intros q.
  destruct (decide (q = p)) as [->|Hne].
  - rewrite lookup_insert_eq, under_lookup by done.
    by apply (mkdir_from_target f f' [] p).
  - rewrite lookup_insert_ne by done.
    destruct (decide (d `prefix_of` q)) as [Hq|Hq];
      [|by rewrite !under_lookup_out].
    rewrite !under_lookup by done.
    destruct (decide (q `prefix_of` p)) as [Hqp|Hqp].
    + destruct (Hbetween q Hq Hqp Hne) as [n Hn]. rewrite Hn.
      by eapply mkdir_from_keeps.
    + eapply mkdir_from_frame; [done|]. by intros [_ ?].
Qed.

(** ** From the staging directory to the members of the archive *)

Lemma listing_kmap (f : gmap path node) (d : path) (tree : gmap path node) :
  Spec.under d f = kmap (app d) tree → listing f d ≡ₚ map_to_list tree.
Proof.
  intros Htree. unfold listing. fold (Spec.under d f). rewrite Htree.
  rewrite map_to_list_kmap by apply _.
  rewrite <- list_fmap_compose.
  rewrite (list_fmap_ext _ id (map_to_list tree)); [by rewrite list_fmap_id|].
  intros i [k n] _. simpl. by rewrite drop_app_length.
Qed.

Lemma with_artifacts_kmap (c : OS.Client) (d dir : path) (refs : list string)
    (tree : gmap path node) :
  Spec.with_artifacts c (d ++ dir) refs (kmap (app d) tree)
  = kmap (app d) (Spec.with_artifacts c dir refs tree).
Proof.
  unfold Spec.with_artifacts. revert tree.
  induction refs as [|ref refs IH]; intros tree; simpl; [done|].
  rewrite <- IH. f_equal. rewrite kmap_insert by apply _.
  by rewrite <- app_assoc.
Qed.

Lemma with_artifacts_lookup (c : OS.Client) (dir : path) (refs : list string)
    (tree : gmap path node) (n : string) :
  (∃ bytes, Spec.with_artifacts c dir refs tree !! (dir ++ [n])
            = Some (File bytes))
  ↔ n ∈ Spec.artifact_name <$> refs
    ∨ ∃ bytes, tree !! (dir ++ [n]) = Some (File bytes).
Proof.
  unfold Spec.with_artifacts. revert tree.
  induction refs as [|ref refs IH]; intros tree; csimpl.
  - split; [by right|]. intros [H|H]; [|done]. by apply elem_of_nil in H.
  - rewrite IH. rewrite elem_of_cons. split.
    + intros [H|[bytes H]]; [by left; right|].
      destruct (decide (n = Spec.artifact_name ref)) as [->|Hne];
        [by left; left|].
      rewrite lookup_insert_ne in H by (by intros [= ?]%app_inv_head).
      right. by exists bytes.
    + intros [[->|H]|[bytes H]]; [|by left|].
      * right. eexists. apply lookup_insert_eq.
      * destruct (decide (n = Spec.artifact_name ref)) as [->|Hne].
        -- right. eexists. apply lookup_insert_eq.
        -- right. exists bytes.
           by rewrite lookup_insert_ne by (by intros [= ?]%app_inv_head).
Qed.

Lemma artifact_files_elem (members : list (path * node)) (n : string) :
  n ∈ Spec.artifact_files members
  ↔ ∃ bytes, (["artifacts"; n], File bytes) ∈ members.
Proof.
  unfold Spec.artifact_files. rewrite list_elem_of_omap. split.
  - intros ([q [|bytes]] & Hin & Hq);
      repeat (destruct q as [|? q]; try done).
    destruct (String.eqb _ "artifacts") eqn:Heq; [|done].
    apply String.eqb_eq in Heq as ->. injection Hq as ->. by exists bytes.
  - intros [bytes Hin]. by exists (["artifacts"; n], File bytes).
Qed.

Lemma artifact_files_NoDup (members : list (path * node)) :
  NoDup members.*1 → NoDup (Spec.artifact_files members).
Proof.
  induction members as [|[q nd] members IH]; csimpl; [constructor|].
  intros [Hq Hnd]%NoDup_cons. specialize (IH Hnd).
  unfold Spec.artifact_files in *. csimpl.
  destruct nd as [|bytes]; repeat (destruct q as [|? q]; try done).
  destruct (String.eqb _ "artifacts") eqn:Heq; [|done].
  apply String.eqb_eq in Heq as ->. csimpl. apply NoDup_cons. split; [|done].
  intros [bytes' Hin]%artifact_files_elem. apply Hq.
  apply list_elem_of_fmap. by exists (["artifacts"; s0], File bytes').
Qed.

Lemma with_artifacts_insert (c : OS.Client) (dir : path) (refs : list string)
    (k : path) (v : node) (tree : gmap path node) :
  (∀ n, k ≠ dir ++ [n]) →
  Spec.with_artifacts c dir refs (<[k := v]> tree)
  = <[k := v]> (Spec.with_artifacts c dir refs tree).
Proof.
  intros Hk. unfold Spec.with_artifacts. revert tree.
  induction refs as [|ref refs IH]; intros tree; simpl; [done|].
  rewrite <- IH. f_equal. by apply insert_insert_ne.
Qed.

Lemma snoc_neq {A} (l : list A) (x : A) : l ++ [x] ≠ l.
Proof.
  intros H. apply (f_equal length) in H. rewrite length_app in H.
  simpl in H. lia.
Qed.

Lemma remove_dups_length_NoDup {A} `{EqDecision A} (l : list A) :
  NoDup l → length (remove_dups l) = length l.
Proof.
  intros Hl. apply Permutation_length, NoDup_Permutation;
    [apply NoDup_remove_dups | done | apply elem_of_remove_dups].
Qed.

Section Export_steps.

Variable cwd : path.
Variable Key : Type.
Variable LoadKeyRing : gmap path node → path → error + list Key.
Variable KeyRing_Key : list Key → string → error + Key.
Variable Clearsign : Key → Bundle → string * option error.
Variable tar_gz : list (path * node) → string.

Local Abbreviation Export := (Packager.Export cwd Key LoadKeyRing KeyRing_Key Clearsign
                      tar_gz).

Local Abbreviation staging := (Spec.staging cwd).
Local Abbreviation bundlefile := Spec.bundlefile.
Local Abbreviation destination := (Spec.destination cwd).

(** [Export] from its start to the point where the descriptor is staged:
    the log file is made, the source is a regular file, the loader yields
    [bun], the staging directory is made and the descriptor copied into it.
    What is left to run is the rest of the body, and then the deferred
    removal of the staging directory. *)
Lemma Export_staged (ex : Packager.Exporter) (w w1 w2 w3 : world)
    (logsf : nat) (c : string) (bun : Bundle) :
  CreateNamed cwd (Packager.Logs ex) w = (Ret logsf, w1) →
  stat_name (fs w1) cwd (Packager.Source ex) = inr (File c) →
  Packager.Loader ex (fs w1) (Abs cwd (Packager.Source ex)) = inr bun →
  MkdirAll (staging bun) w1 = (Ret tt, w2) →
  bind (OpenNamed cwd (Packager.Source ex))
    (λ from, bind (OpenFile (Join (staging bun) (bundlefile ex)))
               (λ to, Copy to from)) w2 = (Ret tt, w3) →
  Export ex w
  = defer (RemoveAll (staging bun))
      (bind (if negb (Packager.Thin ex) then
               bind (on_error
                       (λ err, Errorf ("Error preparing artifacts: "
                                       +:+ Error err))
                       (Packager.prepareArtifacts ex bun (staging bun) logsf))
                 (λ bun',
                    on_error
                      (λ err, Errorf ("Error writing updated bundle file: "
                                      +:+ Error err))
                      (Packager.writeBundle cwd Key LoadKeyRing KeyRing_Key
                         Clearsign bun' (Packager.Signer ex)
                         (Packager.SecretKeyRing ex)
                         (Join (staging bun) (bundlefile ex))))
             else ret tt)
         (λ _, bind (on_error
                       (λ err, Errorf ("Error creating archive file: "
                                       +:+ Error err))
                       (CreateNamed cwd (Spec.destination_name ex bun)))
                 (λ writer, bind (Packager.TarWithOptions tar_gz (staging bun))
                              (λ rc, Write writer rc)))) w3.
Proof.
  unfold Spec.staging, Spec.bundlefile, Spec.destination.
  intros Hlog Hstat Hload Hmk Hcopy.
  unfold Packager.Export. rewrite (bind_Ret _ _ _ _ _ Hlog).
  unfold bind at 1, Stat. rewrite Hstat. simpl.
  unfold bind at 1, on_error at 1, Packager.Load. rewrite Hload.
  rewrite (bind_Ret _ _ _ _ _ Hmk). unfold defer.
  apply bind_Ret_inv in Hcopy as (from & w4 & Hopen & Hcopy).
  apply bind_Ret_inv in Hcopy as (to & w5 & Hto & Hcopy).
  rewrite (bind_Ret _ _ _ _ _ Hopen), (bind_Ret _ _ _ _ _ Hto).
  rewrite (bind_Ret _ _ _ _ _ Hcopy). done.
Qed.

(** C2: in a thick export, when the references of the bundle are
    [pre ++ x :: post], every reference of [pre] was archived and archiving
    [x] fails with [e], then [prepareArtifacts] returns [e] in the world the
    failed call left (nothing of [post] is touched), and [Export] returns
    that error, wrapped, with nothing done after it but the deferred removal
    of the staging directory: nothing staged is left, and the only calls of
    the whole run went to the Docker client, so no archive was made and
    nothing was signed. *)
Theorem Export_image_failure_aborts (ex : Packager.Exporter) (w : world)
    (bun : Bundle) (pre post : list string) (x : string) (e : error)
    (w1 w2 w3 w4 w5 w6 : world) (logsf : nat) (c : string)
    (rs : list (string * string)) :
  Packager.Thin ex = false →
  CreateNamed cwd (Packager.Logs ex) w = (Ret logsf, w1) →
  stat_name (fs w1) cwd (Packager.Source ex) = inr (File c) →
  Packager.Loader ex (fs w1) (Abs cwd (Packager.Source ex)) = inr bun →
  MkdirAll (staging bun) w1 = (Ret tt, w2) →
  bind (OpenNamed cwd (Packager.Source ex))
    (λ from, bind (OpenFile (Join (staging bun) (bundlefile ex)))
               (λ to, Copy to from)) w2 = (Ret tt, w3) →
  MkdirAll (Join (staging bun) "artifacts") w3 = (Ret tt, w4) →
  Spec.references bun = pre ++ x :: post →
  for_range (λ ref, Packager.archiveImage ex ref
                      (Join (staging bun) "artifacts") logsf) pre w4
  = (Ret rs, w5) →
  Packager.archiveImage ex x (Join (staging bun) "artifacts") logsf w5
  = (Fail e, w6) →
  Packager.prepareArtifacts ex bun (staging bun) logsf w3 = (Fail e, w6)
  ∧ Export ex w
    = (Fail (Errorf ("Error preparing artifacts: " +:+ Error e)),
       RemoveAll (staging bun) w6)
  ∧ Spec.under (staging bun) (fs (RemoveAll (staging bun) w6)) = ∅
  ∧ ∃ t, trace (RemoveAll (staging bun) w6) = trace w ++ t
         ∧ Forall Spec.docker_event t.
Proof.
  intros Hthin Hlog Hstat Hload Hmk Hcopy Hart Hrefs Hpre Hx.
  rewrite artifacts_dir in *.
  assert (Packager.prepareArtifacts ex bun (staging bun) logsf w3
          = (Fail e, w6)) as Hprep.
  { rewrite prepareArtifacts_references, (bind_Ret _ _ _ _ _ Hart).
    apply bind_Fail. rewrite Hrefs. by eapply for_range_fail_at. }
  split; [done|]. split; [|split].
  - rewrite (Export_staged _ _ _ _ _ _ _ _ Hlog Hstat Hload Hmk Hcopy).
    rewrite Hthin. simpl. unfold defer.
    by rewrite (bind_Fail _ _ _ _ _
                  (bind_Fail _ _ _ _ _ (on_error_Fail _ _ _ _ _ Hprep))).
  - apply under_remove_all.
  - apply CreateNamed_trace in Hlog. apply MkdirAll_trace in Hmk, Hart.
    apply bind_Ret_inv in Hcopy
        as (from & wa & Hopen%OpenNamed_trace & Hcopy).
    apply bind_Ret_inv in Hcopy as (to & wb & Hto%OpenFile_trace
                                      & Hcopy%Copy_trace).
    apply for_range_archiveImage_trace in Hpre as (t1 & Ht1 & Hd1).
    apply archiveImage_trace in Hx as (t2 & Ht2 & Hd2).
    exists (t1 ++ t2). split; [|by apply Forall_app].
    simpl. rewrite Ht2, Ht1, Hart, Hcopy, Hto, Hopen, Hmk, Hlog.
    by rewrite app_assoc.
Qed.

(** ** [Export]: a staging directory that is already there *)

(** What the steps of [Export] leave as it is. *)

Lemma write_at_lookup_ne (f : gmap path node) (p x : path) (off : nat)
    (bytes : string) :
  x ≠ p → write_at f p off bytes !! x = f !! x.
Proof.
  intros Hx. unfold write_at. destruct bytes as [|c s]; [done|].
  destruct (f !! p) as [[|old]|]; [done| |done]. by apply lookup_insert_ne.
Qed.

Lemma listing_elem (f : gmap path node) (d q : path) (n : node) :
  f !! (d ++ q) = Some n → (q, n) ∈ listing f d.
Proof.
  intros Hq. unfold listing.
  apply (list_elem_of_fmap_2'
           (λ kv : path * node, (drop (length d) kv.1, kv.2))
           _ (d ++ q, n)).
  - apply elem_of_map_to_list, map_lookup_filter_Some.
    split; [done|]. by apply prefix_app_r.
  - simpl. by rewrite drop_app_length.
Qed.

Lemma stage_descriptor_named (wd : path) (name : string) (p : path)
    (w w' : world) :
  bind (OpenNamed wd name)
    (λ from, bind (OpenFile p) (λ to, Copy to from)) w = (Ret tt, w') →
  bind (Open (Abs wd name))
    (λ from, bind (OpenFile p) (λ to, Copy to from)) w = (Ret tt, w').
Proof.
  intros (from & w1 & Hopen%OpenNamed_Ret & H)%bind_Ret_inv.
  by rewrite (bind_Ret _ _ _ _ _ Hopen).
Qed.

Lemma stage_descriptor_keeps (src p x : path) (w w' : world) :
  bind (Open src) (λ from, bind (OpenFile p) (λ to, Copy to from)) w
  = (Ret tt, w') →
  x ≠ p → fs w' !! x = fs w !! x.
Proof.
  intros (f & bytes & Hcreate & -> & _)%stage_descriptor Hx.
  rewrite write_at_lookup_ne by done.
  apply create_inr in Hcreate as (_ & _ & _ & ->).
  destruct (fs w !! p) as [[|d]|]; [|done|]; by apply lookup_insert_ne.
Qed.

Lemma written_lookup_ne (fd : nat) (bytes : string) (w : world) (l x : path) :
  Spec.fd_path w fd = Some l → x ≠ l →
  fs (Spec.written fd bytes w) !! x = fs w !! x.
Proof.
  unfold Spec.fd_path, Spec.written, Write. intros Hfd Hx.
  destruct (fds w !! fd) as [[p off]|]; [|done]. simpl in *.
  injection Hfd as ->. by apply write_at_lookup_ne.
Qed.

Lemma archiveImage_keeps (ex : Packager.Exporter) (image : string)
    (dir l x : path) (logs : nat) (w w' : world) (r : string * string) :
  Packager.archiveImage ex image dir logs w = (Ret r, w') →
  Spec.fd_path w logs = Some l → x ≠ l → ¬ dir `prefix_of` x →
  fs w' !! x = fs w !! x ∧ Spec.fds_kept w w'.
Proof.
  intros (pl & rd & _ & _ & _ & _ & _ & ->)%archiveImage_Ret Hfd Hl Hx.
  simpl. split.
  - rewrite lookup_insert_ne.
    + by eapply written_lookup_ne.
    + intros <-. apply Hx. by apply prefix_app_r.
  - apply (fds_kept_trans _ (Spec.written logs (data pl) w));
      [apply written_fds_kept|].
    destruct (Spec.written logs (data pl) w). simpl. apply fds_kept_app.
Qed.

Lemma for_range_archiveImage_keeps (ex : Packager.Exporter) (dir l x : path)
    (logs : nat) (refs : list string) (w w' : world)
    (rs : list (string * string)) :
  for_range (λ ref, Packager.archiveImage ex ref dir logs) refs w
  = (Ret rs, w') →
  Spec.fd_path w logs = Some l → x ≠ l → ¬ dir `prefix_of` x →
  fs w' !! x = fs w !! x.
Proof.
  intros H Hfd Hl Hx. revert w rs H Hfd.
  induction refs as [|ref refs IH]; intros w rs; simpl.
  - by intros [= _ <-] _.
  - intros (r & w1 & Hr & (rs' & w2 & Hrs & Hret)%bind_Ret_inv)%bind_Ret_inv
           Hfd.
    injection Hret as _ <-.
    destruct (archiveImage_keeps _ _ _ _ _ _ _ _ _ Hr Hfd Hl Hx)
      as [H1 Hk1].
    by rewrite (IH _ _ Hrs (Hk1 _ _ Hfd)).
Qed.

Lemma prepareArtifacts_keeps (ex : Packager.Exporter) (bun bun' : Bundle)
    (archiveDir l x : path) (logs : nat) (w w' : world) (n : node) :
  Packager.prepareArtifacts ex bun archiveDir logs w = (Ret bun', w') →
  Spec.fd_path w logs = Some l → x ≠ l →
  ¬ (archiveDir ++ ["artifacts"]) `prefix_of` x →
  fs w !! x = Some n → fs w' !! x = Some n.
Proof.
  rewrite prepareArtifacts_references.
  intros ([] & w1 & Hmk & H)%bind_Ret_inv Hfd Hl Hx Hn.
  apply bind_Ret_inv in H as (rs & w2 & Hrs & [= _ <-]).
  pose proof (MkdirAll_fds_kept _ _ _ _ Hmk) as Hk.
  rewrite (for_range_archiveImage_keeps _ _ _ _ _ _ _ _ _ Hrs (Hk _ _ Hfd)
             Hl Hx).
  unfold MkdirAll in Hmk.
  destruct (mkdir_all (fs w) (archiveDir ++ ["artifacts"])) as [e|f] eqn:Hf;
    [done|].
  injection Hmk as <-. simpl. by eapply mkdir_from_keeps.
Qed.

(** C7, as amended: when the staging directory exists as a directory at the
    time [Export] gets to it, [os.MkdirAll] returns no error and changes
    nothing, and [Export] goes on with the directory as it is: if the steps
    that follow succeed (the descriptor is copied; in a thick export the
    artifacts are prepared and the bundle is written; the destination file
    is created), [Export] returns no error.  It has archived the directory
    as it stood when the destination was made: the archive is written to
    the destination and holds, besides what the run staged, what the
    directory already held (every entry that the run did not write to
    itself).  At the end the directory is removed with all that is in it:
    nothing is left at or below its path. *)
Theorem Export_existing_staging_dir_not_detected (ex : Packager.Exporter)
    (w w1 : world) (bun : Bundle) (w3 w4 w5 : world) (logsf writer : nat)
    (c : string) :
  CreateNamed cwd (Packager.Logs ex) w = (Ret logsf, w1) →
  stat_name (fs w1) cwd (Packager.Source ex) = inr (File c) →
  Packager.Loader ex (fs w1) (Abs cwd (Packager.Source ex)) = inr bun →
  stat (fs w1) (staging bun) = inr Dir →
  bind (OpenNamed cwd (Packager.Source ex))
    (λ from, bind (OpenFile (Join (staging bun) (bundlefile ex)))
               (λ to, Copy to from)) w1 = (Ret tt, w3) →
  (if Packager.Thin ex then w4 = w3
   else ∃ bun' wp,
       Packager.prepareArtifacts ex bun (staging bun) logsf w3
       = (Ret bun', wp)
       ∧ Packager.writeBundle cwd Key LoadKeyRing KeyRing_Key Clearsign bun'
           (Packager.Signer ex) (Packager.SecretKeyRing ex)
           (Join (staging bun) (bundlefile ex)) wp = (Ret tt, w4)) →
  CreateNamed cwd (Spec.destination_name ex bun) w4 = (Ret writer, w5) →
  MkdirAll (staging bun) w1 = (Ret tt, w1)
  ∧ ∃ w', Export ex w = (Ret tt, w')
          ∧ trace w' = trace w5 ++ [EvTar (staging bun)
                                      (listing (fs w5) (staging bun))]
          ∧ fs w'
            = remove_all
                (<[destination ex bun
                   := File (tar_gz (listing (fs w5) (staging bun)))]> (fs w5))
                (staging bun)
          ∧ Spec.under (staging bun) (fs w') = ∅
          ∧ (¬ staging bun `prefix_of` destination ex bun →
             fs w' !! destination ex bun
             = Some (File (tar_gz (listing (fs w5) (staging bun)))))
          ∧ ∀ q n,
              fs w1 !! (staging bun ++ q) = Some n →
              q ≠ [bundlefile ex] →
              staging bun ++ q ≠ destination ex bun →
              (Packager.Thin ex = false →
               ¬ ["artifacts"] `prefix_of` q
               ∧ staging bun ++ q ≠ Abs cwd (Packager.Logs ex)) →
              (q, n) ∈ listing (fs w5) (staging bun).
Proof.
  intros Hlog Hstat Hload Hdir Hcopy Hmode Hdest.
  pose proof (MkdirAll_existing _ _ Hdir) as Hmk. split; [done|].
  rewrite (Export_staged _ _ _ _ _ _ _ _ Hlog Hstat Hload Hmk Hcopy).
  unfold defer.
  match goal with
  | |- context [bind ?m _ w3] => assert (m w3 = (Ret tt, w4)) as Hm
  end.
  { destruct (Packager.Thin ex); simpl.
    - by rewrite Hmode.
    - destruct Hmode as (bun' & wp & Hprep & Hwrite).
      rewrite (bind_Ret _ _ _ _ _ (on_error_Ret _ _ _ _ _ Hprep)).
      by apply on_error_Ret. }
  rewrite (bind_Ret _ _ _ _ _ Hm).
  rewrite (bind_Ret _ _ _ _ _ (on_error_Ret _ _ _ _ _ Hdest)).
  unfold bind at 1, Packager.TarWithOptions.
  apply CreateNamed_Ret in Hdest. fold (destination ex bun) in Hdest.
  (* the open log file *)
  assert (Spec.fd_path w1 logsf = Some (Abs cwd (Packager.Logs ex))) as Hfd.
  { apply CreateNamed_Ret, Create_Ret_inv in Hlog as (f & _ & -> & ->).
    unfold Spec.fd_path. simpl. by rewrite lookup_app_r, Nat.sub_diag. }
  assert (Spec.fds_kept w1 w3) as Hk3.
  { apply stage_descriptor_named, stage_descriptor in Hcopy
        as (f & bytes & _ & _ & _ & Hk). done. }
  assert (∀ q n,
            fs w1 !! (staging bun ++ q) = Some n →
            q ≠ [bundlefile ex] →
            staging bun ++ q ≠ destination ex bun →
            (Packager.Thin ex = false →
             ¬ ["artifacts"] `prefix_of` q
             ∧ staging bun ++ q ≠ Abs cwd (Packager.Logs ex)) →
            fs w5 !! (staging bun ++ q) = Some n) as Hheld.
  { intros q n Hn Hq Hqd Hthick.
    assert (fs w3 !! (staging bun ++ q) = Some n) as Hn3.
    { rewrite (stage_descriptor_keeps _ _ _ _ _
                 (stage_descriptor_named _ _ _ _ _ Hcopy)); [done|].
      rewrite bundlefile_path. by intros ?%app_inv_head. }
    assert (fs w4 !! (staging bun ++ q) = Some n) as Hn4.
    { destruct (Packager.Thin ex); [by subst w4|].
      destruct Hmode as (bun' & wp & Hprep & Hwrite).
      destruct Hthick as [Hart Hl]; [done|].
      apply writeBundle_Ret in Hwrite as (signed & -> & _).
      rewrite lookup_insert_ne.
      - eapply prepareArtifacts_keeps; [done|by apply Hk3|done| |done].
        intros [k Hk]. apply Hart. exists k.
        rewrite <- app_assoc in Hk. by apply app_inv_head in Hk.
      - rewrite bundlefile_path. by intros ?%app_inv_head. }
    apply Create_Ret_inv in Hdest as (f & Hcreate & _ & ->).
    apply create_true_insert in Hcreate as ->. simpl.
    by rewrite lookup_insert_ne. }
  apply Create_Ret_inv in Hdest as (f & Hcreate & -> & ->).
  apply create_true_insert in Hcreate as ->.
  unfold emit. simpl. rewrite Write_created. simpl.
  eexists. split; [reflexivity|]. simpl.
  split; [done|]. split; [by rewrite insert_insert_eq|].
  split; [apply under_remove_all|]. split.
  - intros Hout. apply map_lookup_filter_Some_2; [|done].
    apply lookup_insert_eq.
  - intros q n Hn Hq Hqd Hthick. apply listing_elem. simpl in Hheld.
    by apply Hheld.
Qed.

(** ** [Export]: what the archive holds *)

(** The steps of a run of [Export] that returns no error. *)
Lemma Export_Ret_inv (ex : Packager.Exporter) (w w' : world) :
  Export ex w = (Ret tt, w') →
  ∃ logsf w1 c bun w2 w3 w4,
    CreateNamed cwd (Packager.Logs ex) w = (Ret logsf, w1)
    ∧ stat_name (fs w1) cwd (Packager.Source ex) = inr (File c)
    ∧ Packager.Loader ex (fs w1) (Abs cwd (Packager.Source ex)) = inr bun
    ∧ MkdirAll (staging bun) w1 = (Ret tt, w2)
    ∧ bind (OpenNamed cwd (Packager.Source ex))
        (λ from, bind (OpenFile (Join (staging bun) (bundlefile ex)))
                   (λ to, Copy to from)) w2 = (Ret tt, w3)
    ∧ (if Packager.Thin ex then w4 = w3
       else ∃ bun' wp,
           Packager.prepareArtifacts ex bun (staging bun) logsf w3
           = (Ret bun', wp)
           ∧ Packager.writeBundle cwd Key LoadKeyRing KeyRing_Key Clearsign
               bun' (Packager.Signer ex) (Packager.SecretKeyRing ex)
               (Join (staging bun) (bundlefile ex)) wp = (Ret tt, w4))
    ∧ create true (fs w4) (destination ex bun)
      = inr (<[destination ex bun := File ""]> (fs w4))
    ∧ let members := listing (<[destination ex bun := File ""]> (fs w4))
                       (staging bun) in
      fs w' = remove_all (<[destination ex bun := File (tar_gz members)]>
                            (fs w4)) (staging bun)
      ∧ trace w' = trace w4 ++ [EvTar (staging bun) members].
Proof.
  unfold Spec.staging, Spec.bundlefile, Spec.destination.
  intros H. unfold Packager.Export in H.
  apply bind_Ret_inv in H as (logsf & w1 & Hlog & H).
  apply bind_Ret_inv in H as (st & w1' & Hst & H). unfold Stat in Hst.
  destruct (stat_name (fs w1) cwd (Packager.Source ex)) as [e|n] eqn:Hstat;
    injection Hst as <- <-; simpl in H.
  { by destruct e. }
  destruct n as [|c]; [done|].
  apply bind_Ret_inv in H as (bun & w1' & Hload%on_error_Ret_inv & H).
  unfold Packager.Load in Hload.
  destruct (Packager.Loader ex _ _) as [e|bun0] eqn:Hloader; [done|].
  injection Hload as -> <-.
  apply bind_Ret_inv in H as ([] & w2 & Hmk & H).
  apply defer_inv in H as (w6 & H & ->).
  apply bind_Ret_inv in H as (from & wa & Hopen & H).
  apply bind_Ret_inv in H as (to & wb & Hto & H).
  apply bind_Ret_inv in H as ([] & w3 & Hcopy & H).
  apply bind_Ret_inv in H as ([] & w4 & Hmode & H).
  apply bind_Ret_inv in H as (writer & w5 & Hdest%on_error_Ret_inv & H).
  apply bind_Ret_inv in H as (rc & w5' & Htar & Hwrite).
  apply CreateNamed_Ret, Create_Ret_inv in Hdest as (f & Hcreate & -> & ->).
  pose proof (create_true_insert _ _ _ Hcreate) as ->.
  unfold Packager.TarWithOptions in Htar. injection Htar as <- <-.
  unfold emit in Hwrite. simpl in Hwrite.
  rewrite Write_created in Hwrite. injection Hwrite as <-.
  exists logsf, w1, c, bun, w2, w3, w4. repeat split; try done.
  - by rewrite (bind_Ret _ _ _ _ _ Hopen), (bind_Ret _ _ _ _ _ Hto).
  - destruct (Packager.Thin ex); simpl in Hmode.
    + by injection Hmode as <-.
    + apply bind_Ret_inv in Hmode as (bun' & wp & Hprep%on_error_Ret_inv
                                        & Hwrite%on_error_Ret_inv).
      by exists bun', wp.
Qed.

(** The staging directory after the descriptor was copied, when nothing
    was there at the start: the directory and the descriptor; the log file
    lies outside. *)
Lemma staged_descriptor (ex : Packager.Exporter) (w w1 w2 w3 : world)
    (logsf : nat) (bun : Bundle) (content : string) :
  (∀ q, staging bun `prefix_of` q → fs w !! q = None) →
  CreateNamed cwd (Packager.Logs ex) w = (Ret logsf, w1) →
  stat_name (fs w1) cwd (Packager.Source ex) = inr (File content) →
  MkdirAll (staging bun) w1 = (Ret tt, w2) →
  bind (OpenNamed cwd (Packager.Source ex))
    (λ from, bind (OpenFile (Join (staging bun) (bundlefile ex)))
               (λ to, Copy to from)) w2 = (Ret tt, w3) →
  ¬ staging bun `prefix_of` Abs cwd (Packager.Logs ex)
  ∧ Spec.fd_path w3 logsf = Some (Abs cwd (Packager.Logs ex))
  ∧ Spec.under (staging bun) (fs w3)
    = <[staging bun ++ [bundlefile ex] := File content]>
        {[staging bun := Dir]}.
Proof.
  intros Hfresh Hlog%CreateNamed_Ret Hstat%stat_name_inr Hmk
         Hcopy%stage_descriptor_named.
  pose proof (staging_nonempty cwd bun) as Ha.
  set (a := staging bun) in *. set (l := Abs cwd (Packager.Logs ex)) in *.
  pose proof (Create_fds_kept _ _ _ _ Hlog) as Hk1.
  pose proof (MkdirAll_fds_kept _ _ _ _ Hmk) as Hk2.
  apply Create_Ret_inv in Hlog as (f1 & Hcreate & -> & ->).
  pose proof (create_true_insert _ _ _ Hcreate) as ->.
  unfold MkdirAll in Hmk. simpl in Hmk, Hstat.
  destruct (mkdir_all _ a) as [e|f2] eqn:Hmkdir; [done|]. injection Hmk as <-.
  assert (¬ a `prefix_of` l) as Hl.
  { intros Hal.
    assert (l = a) as Heq by (by eapply create_at_or_outside).
    destruct (mkdir_from_file (<[l := File ""]> (fs w)) [] a a "")
      as [e He]; [rewrite Heq; apply lookup_insert_eq | done
                 | apply prefix_nil | done |].
    unfold mkdir_all in Hmkdir. congruence. }
  split; [done|].
  assert (Spec.under a f2 = {[a := Dir]}) as Hu2.
  { rewrite (mkdir_all_under _ _ a a Hmkdir); [|done|done|].
    - rewrite under_insert_out by done.
      by rewrite (under_empty _ _ Hfresh), insert_empty.
    - intros q H1 H2 Hne. destruct Hne. by apply prefix_antisym. }
  apply stage_descriptor in Hcopy
      as (f3 & bytes & Hcreate3 & Hfs3 & Hbytes & Hk3).
  rewrite bundlefile_path in *. simpl in Hcreate3.
  assert (f2 !! (a ++ [bundlefile ex]) = None) as Hnone.
  { rewrite <- (under_lookup a) by (by apply prefix_app_r).
    rewrite Hu2. apply lookup_singleton_ne. symmetry. apply snoc_neq. }
  apply create_inr in Hcreate3 as (_ & _ & _ & ->).
  rewrite Hnone in Hfs3, Hbytes.
  assert (bytes = content) as ->.
  { apply Hbytes. apply walk_result in Hstat. simpl in Hstat.
    destruct (Abs cwd (Packager.Source ex)) as [|s0 src]; [done|].
    simpl in *.
    pose proof (mkdir_from_keeps _ _ _ _ _ _ Hmkdir Hstat) as Hsrc2.
    rewrite lookup_insert_ne; [done|]. intros Heq.
    rewrite Heq in Hnone. congruence. }
  split.
  { apply Hk3, Hk2. unfold Spec.fd_path. simpl.
    by rewrite lookup_app_r, Nat.sub_diag. }
  rewrite Hfs3, write_at_fresh by apply lookup_insert_eq.
  rewrite insert_insert_eq, under_insert_in by (by apply prefix_app_r).
  by rewrite Hu2.
Qed.

(** The staging directory after the artifacts were prepared and the bundle
    was written. *)
Lemma staged_artifacts (ex : Packager.Exporter) (w3 wp w4 : world)
    (logsf : nat) (bun bun' : Bundle) (content : string) (l : path) :
  Spec.under (staging bun) (fs w3)
  = <[staging bun ++ [bundlefile ex] := File content]>
      {[staging bun := Dir]} →
  Spec.fd_path w3 logsf = Some l → ¬ staging bun `prefix_of` l →
  Packager.prepareArtifacts ex bun (staging bun) logsf w3 = (Ret bun', wp) →
  Packager.writeBundle cwd Key LoadKeyRing KeyRing_Key Clearsign bun'
    (Packager.Signer ex) (Packager.SecretKeyRing ex)
    (Join (staging bun) (bundlefile ex)) wp = (Ret tt, w4) →
  ∃ signed,
    Spec.under (staging bun) (fs w4)
    = kmap (app (staging bun))
        (Spec.thick_tree (Packager.Client ex) (bundlefile ex) signed
           (Spec.references bun)).
Proof.
  set (a := staging bun). intros Hu3 Hfd Hl Hprep Hwrite.
  rewrite prepareArtifacts_references in Hprep.
  apply bind_Ret_inv in Hprep as ([] & w3a & Hmk & Hprep).
  apply bind_Ret_inv in Hprep as (rs & wp' & Hrs & Hret).
  injection Hret as _ <-.
  pose proof (MkdirAll_fds_kept _ _ _ _ Hmk) as Hk.
  unfold MkdirAll in Hmk.
  destruct (mkdir_all (fs w3) (a ++ ["artifacts"])) as [e|f] eqn:Hmkdir;
    [done|].
  injection Hmk as <-.
  assert (Spec.under a f
          = <[a ++ ["artifacts"] := Dir]> (Spec.under a (fs w3))) as Hu.
  { apply (mkdir_all_under _ _ a _ Hmkdir); [by apply prefix_app_r|
                                              by destruct a|].
    intros q H1 H2 Hne.
    destruct (prefix_snoc_inv _ _ _ H1 H2) as [-> | ->]; [|done].
    rewrite <- (under_lookup a) by done. rewrite Hu3.
    rewrite lookup_insert_ne by apply snoc_neq.
    rewrite lookup_singleton_eq. eauto. }
  destruct (for_range_archiveImage_under _ _ a l _ _ _ _ _ Hrs)
    as [Hup _]; [by apply Hk | done | by apply prefix_app_r |].
  simpl in Hup. rewrite Hu, Hu3 in Hup.
  apply writeBundle_Ret in Hwrite as (signed & Hfs4 & _).
  rewrite bundlefile_path in Hfs4.
  exists signed. rewrite Hfs4, under_insert_in by (by apply prefix_app_r).
  rewrite Hup. unfold Spec.thick_tree.
  rewrite kmap_insert by apply _.
  rewrite <- with_artifacts_kmap.
  rewrite kmap_insert, kmap_singleton, app_nil_r by apply _.
  rewrite (insert_insert_ne _ (a ++ ["artifacts"])).
  - rewrite with_artifacts_insert; [by rewrite insert_insert_eq|].
    intros n. rewrite <- app_assoc. by intros [= ?]%app_inv_head.
  - intros [= H]%app_inv_head. revert H. unfold Spec.bundlefile.
    by destruct (Packager.Unsigned ex).
Qed.

(** C1, as amended: let [Export] return no error, in a world in which
    nothing existed at or below the path of the staging directory, and with
    a destination outside it.
    Then the destination holds the archive of these members:
    - thin: the staging directory itself and the descriptor, with the bytes
      of the source, and nothing else (no [artifacts/]);
    - thick: the directory, the signed descriptor, the [artifacts/]
      directory, and in it one file per artifact name of the references of
      the bundle — as many files as there are different names, which is
      the number of images when no two of them get the same name. *)
Theorem Export_archive_members (ex : Packager.Exporter) (w w1 w' : world)
    (logsf : nat) (content : string) (bun : Bundle) :
  Spec.under (staging bun) (fs w) = ∅ →
  ¬ staging bun `prefix_of` destination ex bun →
  CreateNamed cwd (Packager.Logs ex) w = (Ret logsf, w1) →
  stat_name (fs w1) cwd (Packager.Source ex) = inr (File content) →
  Packager.Loader ex (fs w1) (Abs cwd (Packager.Source ex)) = inr bun →
  Export ex w = (Ret tt, w') →
  ∃ members,
    fs w' !! destination ex bun = Some (File (tar_gz members))
    ∧ if Packager.Thin ex then
        members ≡ₚ [([], Dir); ([bundlefile ex], File content)]
      else
        (∃ signed,
            members ≡ₚ map_to_list
                         (Spec.thick_tree (Packager.Client ex) (bundlefile ex)
                            signed (Spec.references bun)))
        ∧ Spec.artifact_files members
          ≡ₚ remove_dups (Spec.artifact_name <$> Spec.references bun)
        ∧ (NoDup (Spec.artifact_name <$> Spec.references bun) →
           length (Spec.artifact_files members)
           = length (Spec.references bun)).
Proof.
  intros Hfresh Hdest Hlog Hstat Hload Hexp.
  pose proof (under_empty_inv _ _ Hfresh) as Hnone. clear Hfresh.
  rename Hnone into Hfresh.
  apply Export_Ret_inv in Hexp
      as (logsf' & w1' & c & bun0 & w2 & w3 & w4 & Hlog' & Hstat' & Hload'
          & Hmk & Hcopy & Hmode & Hcreate & Hfs & Htrace).
  rewrite Hlog in Hlog'. injection Hlog' as <- <-.
  rewrite Hload in Hload'. injection Hload' as <-.
  rewrite Hstat in Hstat'. injection Hstat' as <-.
  destruct (staged_descriptor _ _ _ _ _ _ _ _ Hfresh Hlog Hstat Hmk Hcopy)
    as (Hl & Hfd & Hu3).
  set (a := staging bun) in *. set (d := destination ex bun) in *.
  exists (listing (<[d := File ""]> (fs w4)) a). split.
  { rewrite Hfs. apply map_lookup_filter_Some_2; [apply lookup_insert_eq|done]. }
  destruct (Packager.Thin ex).
  - subst w4.
    rewrite (listing_kmap _ a (Spec.thin_tree (bundlefile ex) content)).
    + unfold Spec.thin_tree.
      rewrite map_to_list_insert by (by apply lookup_singleton_ne).
      rewrite map_to_list_singleton. apply perm_swap.
    + rewrite under_insert_out, Hu3 by done. unfold Spec.thin_tree.
      by rewrite kmap_insert, kmap_singleton, app_nil_r by apply _.
  - destruct Hmode as (bun' & wp & Hprep & Hwrite).
    destruct (staged_artifacts _ _ _ _ _ _ _ _ _ Hu3 Hfd Hl Hprep Hwrite)
      as [signed Hu4].
    assert (listing (<[d := File ""]> (fs w4)) a
            ≡ₚ map_to_list
                 (Spec.thick_tree (Packager.Client ex) (bundlefile ex) signed
                    (Spec.references bun))) as Hperm.
    { apply listing_kmap. by rewrite under_insert_out. }
    assert (Spec.artifact_files (listing (<[d := File ""]> (fs w4)) a)
            ≡ₚ remove_dups (Spec.artifact_name <$> Spec.references bun))
      as Hfiles.
    { apply NoDup_Permutation.
      - apply artifact_files_NoDup. rewrite Hperm.
        apply NoDup_fst_map_to_list.
      - apply NoDup_remove_dups.
      - intros n. rewrite artifact_files_elem, elem_of_remove_dups.
        setoid_rewrite Hperm. setoid_rewrite elem_of_map_to_list.
        unfold Spec.thick_tree.
        assert (∀ bytes,
                  <[ [bundlefile ex] := File signed ]>
                    (Spec.with_artifacts (Packager.Client ex) ["artifacts"]
                       (Spec.references bun)
                       (<[ ["artifacts"] := Dir ]> {[ [] := Dir ]}))
                  !! ["artifacts"; n] = Some (File bytes)
                  ↔ Spec.with_artifacts (Packager.Client ex) ["artifacts"]
                      (Spec.references bun)
                      (<[ ["artifacts"] := Dir ]> {[ [] := Dir ]})
                    !! (["artifacts"] ++ [n]) = Some (File bytes)) as Hlook.
        { intros bytes. by rewrite lookup_insert_ne. }
        setoid_rewrite Hlook. rewrite with_artifacts_lookup.
        split; [|by left]. intros [H|[bytes H]]; [done|].
        by rewrite lookup_insert_ne, lookup_singleton_ne in H. }
    split; [by exists signed|]. split; [done|].
    intros Hnodup. rewrite Hfiles, remove_dups_length_NoDup by done.
    apply length_fmap.
Qed.

End Export_steps.

(** ** The theorems at concrete inputs *)

Lemma Export_archive_members_witness :
  let ex := Examples.exporter "bundle.cnab" false Examples.app in
  let rw := Examples.Export ["key"] ex (Examples.start Examples.home) in
  rw.1 = Ret tt
  ∧ ∃ members,
      fs rw.2 !! ["work"; "app-1.0.0.tgz"]
      = Some (File (Examples.toy_tar members))
      ∧ (∃ signed,
            members ≡ₚ map_to_list
                         (Spec.thick_tree Examples.docker "bundle.cnab" signed
                            ["postgres:12"]))
      ∧ Spec.artifact_files members ≡ₚ ["postgres-12.tar"].
Proof.
  split; [vm_compute; reflexivity|].
  destruct (Export_archive_members Examples.cwd string
              (Examples.ring_of ["key"]) Examples.key_by_name Examples.sign
              Examples.toy_tar
              (Examples.exporter "bundle.cnab" false Examples.app)
              (Examples.start Examples.home)
              (World (<[ ["work"; "export.log"] := File "" ]> Examples.home)
                     [(["work"; "export.log"], 0)] [])
              (Examples.Export ["key"]
                 (Examples.exporter "bundle.cnab" false Examples.app)
                 (Examples.start Examples.home)).2
              0 "SIGNED" Examples.app)
    as (members & Hdest & Hsigned & Hfiles & _).
  - vm_compute. reflexivity.
  - intros [k Hk]. vm_compute in Hk. discriminate Hk.
  - vm_compute. reflexivity.
  - vm_compute. reflexivity.
  - reflexivity.
  - vm_compute. reflexivity.
  - exists members. split; [exact Hdest|].
    split; [exact Hsigned|exact Hfiles].
Defined.

(** C1 as stated fails: a thick export of a bundle with the two images
    [a/b] and [a:b], started in a world without a staging directory, returns
    no error, and the archive it writes has one artifact file, not two. *)
Lemma Export_thick_name_collision :
  let ex := Examples.exporter "bundle.cnab" false Examples.clash in
  let rw := Examples.Export ["key"] ex (Examples.start Examples.home) in
  let members :=
    [([], Dir); (["artifacts"], Dir);
     (["artifacts"; "a-b.tar"], File "layers of a:b");
     (["bundle.cnab"], File ("signed by key" +:+ Driver.newline))] in
  Spec.under (Spec.staging Examples.cwd Examples.clash) Examples.home = ∅
  ∧ rw.1 = Ret tt
  ∧ length (Spec.references Examples.clash) = 2
  ∧ last (trace rw.2) = Some (EvTar ["work"; "app-1.0.0-export"] members)
  ∧ fs rw.2 !! ["work"; "app-1.0.0.tgz"]
    = Some (File (Examples.toy_tar members))
  ∧ Spec.artifact_files members = ["a-b.tar"].
Proof. vm_compute. repeat split; reflexivity. Qed.

Lemma Export_image_failure_aborts_witness :
  let ex := Examples.exporter "bundle.cnab" false Examples.broken in
  let rw := Examples.Export ["key"] ex (Examples.start Examples.home) in
  Spec.references Examples.broken = ["postgres:12"] ++ "missing:1" :: ["nginx:1"]
  ∧ rw.1 = Fail (Errorf ("Error preparing artifacts: "
                         +:+ Error (Errorf "No such image")))
  ∧ Spec.under (Spec.staging Examples.cwd Examples.broken) (fs rw.2) = ∅
  ∧ ∃ t, trace rw.2 = [] ++ t ∧ Forall Spec.docker_event t.
Proof.
  split; [reflexivity|].
  edestruct (Export_image_failure_aborts Examples.cwd string
               (Examples.ring_of ["key"]) Examples.key_by_name Examples.sign
               Examples.toy_tar
               (Examples.exporter "bundle.cnab" false Examples.broken)
               (Examples.start Examples.home) Examples.broken
               ["postgres:12"] ["nginx:1"] "missing:1"
               (Errorf "No such image"))
    as (_ & Hexp & Hunder & Htrace).
  - reflexivity.
  - vm_compute. reflexivity.
  - vm_compute. reflexivity.
  - reflexivity.
  - vm_compute. reflexivity.
  - vm_compute. reflexivity.
  - vm_compute. reflexivity.
  - reflexivity.
  - vm_compute. reflexivity.
  - vm_compute. reflexivity.
  - unfold Examples.Export. rewrite Hexp. simpl fst. simpl snd.
    split; [reflexivity|]. split; [exact Hunder|exact Htrace].
Defined.

(** C7 as stated fails: with a staging directory left behind (it holds a
    file), a thin export returns no error; it has archived the directory
    with the file that was in it. *)
Lemma Export_existing_staging_dir_proceeds :
  let ex := Examples.exporter "bundle.cnab" true Examples.app in
  let rw := Examples.Export ["key"] ex (Examples.start Examples.home_staged) in
  Spec.staging Examples.cwd Examples.app = ["work"; "app-1.0.0-export"]
  ∧ stat Examples.home_staged ["work"; "app-1.0.0-export"] = inr Dir
  ∧ rw.1 = Ret tt
  ∧ trace rw.2 = [EvTar ["work"; "app-1.0.0-export"]
                    [([], Dir); (["stale"], File "old");
                     (["bundle.cnab"], File "SIGNED")]].
Proof. vm_compute. repeat split; reflexivity. Qed.

Lemma Export_existing_staging_dir_not_detected_witness :
  let ex := Examples.exporter "bundle.cnab" true Examples.app in
  let w1 := World (<[ ["work"; "export.log"] := File "" ]> Examples.home_staged)
                  [(["work"; "export.log"], 0)] [] in
  stat (fs w1) (Spec.staging Examples.cwd Examples.app) = inr Dir
  ∧ MkdirAll (Spec.staging Examples.cwd Examples.app) w1 = (Ret tt, w1)
  ∧ ∃ w', Examples.Export ["key"] ex (Examples.start Examples.home_staged)
          = (Ret tt, w').
Proof.
  split; [vm_compute; reflexivity|].
  edestruct (Export_existing_staging_dir_not_detected Examples.cwd string
               (Examples.ring_of ["key"]) Examples.key_by_name Examples.sign
               Examples.toy_tar
               (Examples.exporter "bundle.cnab" true Examples.app)
               (Examples.start Examples.home_staged)
               (World (<[ ["work"; "export.log"] := File "" ]>
                         Examples.home_staged)
                      [(["work"; "export.log"], 0)] [])
               Examples.app)
    as (Hmk & w' & Hexp & _).
  - vm_compute. reflexivity.
  - vm_compute. reflexivity.
  - reflexivity.
  - vm_compute. reflexivity.
  - vm_compute. reflexivity.
  - simpl. reflexivity.
  - vm_compute. reflexivity.
  - split; [exact Hmk|]. exists w'. exact Hexp.
Defined.

(** * Further properties of the code *)

(** ** [buildFileName] *)

Lemma sanitize_byte_no_colon (c : ascii) :
  Ascii.eqb (Spec.sanitize_byte c) ":" = false.
Proof.
  unfold Spec.sanitize_byte.
  destruct (Ascii.eqb c "/") eqn:Hslash; [done|].
  destruct (Ascii.eqb c ":") eqn:Hcolon; done.
Qed.

Lemma buildFileName_clean (uri : string) :
  ContainsByte uri "/" = false → ContainsByte uri ":" = false →
  Packager.buildFileName uri = uri.
Proof.
  rewrite buildFileName_bytes.
  induction uri as [|c s IH]; csimpl; [done|].
  intros [Hc Hs]%orb_false_iff [Hc' Hs']%orb_false_iff.
  rewrite IH by done. unfold Spec.sanitize_byte. by rewrite Hc, Hc'.
Qed.

(** X1: the name [buildFileName] makes has as many bytes as the reference,
    contains neither [/] nor [:], and is left as it is by a second
    application. *)
Theorem buildFileName_safe (uri : string) :
  ContainsByte (Packager.buildFileName uri) "/" = false
  ∧ ContainsByte (Packager.buildFileName uri) ":" = false
  ∧ String.length (Packager.buildFileName uri) = String.length uri
  ∧ Packager.buildFileName (Packager.buildFileName uri)
    = Packager.buildFileName uri.
Proof.
  assert (ContainsByte (Packager.buildFileName uri) ":" = false) as Hcolon.
  { rewrite buildFileName_bytes.
    induction uri as [|c s IH]; csimpl; [done|].
    by rewrite sanitize_byte_no_colon, IH. }
  split; [apply buildFileName_no_slash|]. split; [done|]. split.
  - rewrite buildFileName_bytes. clear Hcolon.
    induction uri as [|c s IH]; csimpl; [done|]. by rewrite IH.
  - apply buildFileName_clean; [apply buildFileName_no_slash|done].
Qed.

(** X2: a reference without [/] and without [:] is its own file name. *)
Theorem buildFileName_plain_reference (uri : string) :
  ContainsByte uri "/" = false → ContainsByte uri ":" = false →
  Packager.buildFileName uri = uri.
Proof. apply buildFileName_clean. Qed.

Lemma buildFileName_plain_reference_witness :
  Packager.buildFileName "nginx" = "nginx".
Proof. apply (buildFileName_plain_reference "nginx"); reflexivity. Defined.

(** ** [archiveImage]: streams and failures *)

Lemma archiveImage_balanced (ex : Packager.Exporter) (image : string)
    (dir : path) (logs : nat) :
  Facts.calls Facts.balanced (Packager.archiveImage ex image dir logs).
Proof.
  intros w. unfold Facts.balanced.
  destruct (Packager.archiveImage ex image dir logs w) as [r w'] eqn:H.
  revert H.
  unfold Packager.archiveImage, bind, defer, on_error, ignore_error, CopyFrom,
    bind, ImagePull, ImageSave, Create, Write, Close, emit, ret, fail.
  intros H. run_all;
    (eexists; split; [rewrite <- ?app_assoc; reflexivity|]);
    intros acc; simpl; repeat (rewrite decide_True by done; simpl); done.
Qed.

(** X3: however [archiveImage] ends, every stream the Docker client handed
    out during the call has been closed when it returns: the streams open
    after its calls are the ones that were open before. *)
Theorem archiveImage_closes_streams (ex : Packager.Exporter) (image : string)
    (dir : path) (logs : nat) (w : world) :
  let rw := Packager.archiveImage ex image dir logs w in
  ∃ t, trace rw.2 = trace w ++ t ∧ ∀ acc, open_after acc t = acc.
Proof. apply archiveImage_balanced. Qed.

(** X4: when the pull fails, [archiveImage] returns the error of the client
    behind the text "Error pulling image <image>: "; the failed pull is the
    only call made, and the file system and the open files are as before
    (nothing is saved). *)
Theorem archiveImage_pull_failure (ex : Packager.Exporter) (image : string)
    (dir : path) (logs : nat) (w : world) (e : error) :
  pull_of (Packager.Client ex) image = inl e →
  Packager.archiveImage ex image dir logs w
  = (Fail (Errorf ("Error pulling image " +:+ image +:+ ": " +:+ Error e)),
     World (fs w) (fds w) (trace w ++ [EvImagePull image false])).
Proof.
  intros He. unfold Packager.archiveImage, bind, on_error, ImagePull.
  by rewrite He.
Qed.

(** X5: when the client saves the image but reading the saved stream breaks
    off with [e], [archiveImage] returns [e] and leaves the artifact file
    behind with the bytes that were read; both streams are closed. *)
Theorem archiveImage_read_failure (ex : Packager.Exporter) (image : string)
    (dir : path) (logs : nat) (w : world) (pl rd : stream) (e : error) :
  pull_of (Packager.Client ex) image = inr pl →
  save_of (Packager.Client ex) image = inr rd →
  read_err rd = Some e →
  let wl := Spec.written logs (data pl) w in
  let p := dir ++ [Packager.buildFileName image +:+ ".tar"] in
  create true (fs wl) p = inr (<[p := File ""]> (fs wl)) →
  let rw := Packager.archiveImage ex image dir logs w in
  rw.1 = Fail e
  ∧ fs rw.2 = <[p := File (data rd)]> (fs wl)
  ∧ trace rw.2 = trace w ++ [EvImagePull image true; EvImageSave image true;
                             EvClose (SavedImage image);
                             EvClose (PullLogs image)].
Proof.
  intros Hpl Hrd Herr wl p Hcreate.
  assert (Packager.archiveImage ex image dir logs w
          = (Fail e,
             World (<[p := File (data rd)]> (fs wl))
                   (fds wl ++ [(p, String.length (data rd))])
                   (trace w ++ [EvImagePull image true; EvImageSave image true;
                                EvClose (SavedImage image);
                                EvClose (PullLogs image)]))) as Hrun.
  { unfold Packager.archiveImage.
    unfold bind at 1, on_error, ImagePull. rewrite Hpl. unfold defer.
    rewrite (bind_Ret _ _ _ _ _ (ignore_error_CopyFrom _ _ _)).
    unfold bind at 1, ImageSave. rewrite Hrd. rewrite artifact_path.
    rewrite !written_emit. unfold bind at 1, Create. simpl.
    fold wl. fold p. rewrite Hcreate.
    unfold bind at 1, CopyFrom.
    rewrite (bind_Ret _ _ _ _ _ (Write_created _ _ _ _ _)).
    rewrite Herr. simpl. unfold Close, emit. simpl. do 2 f_equal.
    subst wl. by rewrite written_trace, <- !app_assoc. }
  by rewrite Hrun.
Qed.

(** ** [writeBundle]: keys, signing, writing *)

Section WriteBundle.

Variable cwd : path.
Variable Key : Type.
Variable LoadKeyRing : gmap path node → path → error + list Key.
Variable KeyRing_Key : list Key → string → error + Key.
Variable Clearsign : Key → Bundle → string * option error.

Local Abbreviation writeBundle :=
  (Packager.writeBundle cwd Key LoadKeyRing KeyRing_Key Clearsign).

Lemma writeBundle_no_panic (bf : Bundle) (signer secretKeyRing : string)
    (outputFile : path) :
  Facts.no_panic (writeBundle bf signer secretKeyRing outputFile).
Proof.
  intros w msg.
  unfold Packager.writeBundle, bind, on_error, fail, ret, panic, WriteFile.
  run_all; done.
Qed.

(** X6: [writeBundle] never panics: the index into [kr.Keys()] is taken
    only after the key ring was found to hold a key. *)
Theorem writeBundle_never_panics (bf : Bundle) (signer secretKeyRing : string)
    (outputFile : path) (w : world) (msg : string) :
  (writeBundle bf signer secretKeyRing outputFile w).1 ≠ Panic msg.
Proof. apply writeBundle_no_panic. Qed.

(** X7: with a key ring that holds a key, [writeBundle] signs the bundle
    with the first key of the ring when no signer is named, and with the key
    the ring gives for the name otherwise; when signing succeeds and the
    output file can be made, the file holds the signed bytes followed by a
    newline, nothing else in the file system changes, and the calls made are
    the loading of the key ring and one [Clearsign] of the bundle. *)
Theorem writeBundle_signs_and_writes (bf : Bundle)
    (signer secretKeyRing : string) (outputFile : path) (w : world)
    (first key : Key) (others : list Key) (signed : string)
    (f : gmap path node) :
  LoadKeyRing (fs w) (Abs cwd secretKeyRing) = inr (first :: others) →
  (signer = "" ∧ key = first
   ∨ signer ≠ "" ∧ KeyRing_Key (first :: others) signer = inr key) →
  Clearsign key bf = (signed, None) →
  create true (fs w) outputFile = inr f →
  writeBundle bf signer secretKeyRing outputFile w
  = (Ret tt,
     World (<[outputFile := File (signed +:+ String "010"%char "")]> (fs w))
           (fds w)
           (trace w ++ [EvLoadKeyRing (Abs cwd secretKeyRing);
                        EvClearsign bf])).
Proof.
  intros Hring Hkey Hsign Hcreate.
  unfold Packager.writeBundle, bind, on_error. rewrite Hring. simpl.
  assert ((if negb (String.eqb signer "")
           then match KeyRing_Key (first :: others) signer with
                | inl e => fail e
                | inr k' => ret k'
                end
           else ret first) = ret key) as ->.
  { destruct Hkey as [[-> ->] | [Hne Hk]]; [done|].
    apply String.eqb_neq in Hne. by rewrite Hne, Hk. }
  unfold ret. rewrite Hsign. simpl. unfold WriteFile. simpl.
  rewrite Hcreate. apply create_true_insert in Hcreate as ->.
  unfold set_fs, emit. simpl. by rewrite insert_insert_eq, <- app_assoc.
Qed.

(** X8: when a signer is named and the key ring has no key for the name,
    [writeBundle] returns the error of the lookup as it is; nothing is
    signed and nothing is written. *)
Theorem writeBundle_unknown_signer (bf : Bundle)
    (signer secretKeyRing : string) (outputFile : path) (w : world)
    (first : Key) (others : list Key) (e : error) :
  LoadKeyRing (fs w) (Abs cwd secretKeyRing) = inr (first :: others) →
  signer ≠ "" →
  KeyRing_Key (first :: others) signer = inl e →
  writeBundle bf signer secretKeyRing outputFile w
  = (Fail e,
     World (fs w) (fds w) (trace w ++ [EvLoadKeyRing (Abs cwd secretKeyRing)])).
Proof.
  intros Hring Hne%String.eqb_neq Hkey.
  unfold Packager.writeBundle, bind, on_error. rewrite Hring. simpl.
  by rewrite Hne, Hkey.
Qed.

(** X9: a [writeBundle] that returns an error has written nothing: the
    file system and the open files are as they were before the call, and
    the calls made are the loading of the key ring and at most one
    [Clearsign].  ([ioutil.WriteFile] fails when it opens the file, or not
    at all.) *)
Theorem writeBundle_failure_writes_nothing (bf : Bundle)
    (signer secretKeyRing : string) (outputFile : path) (w w' : world)
    (e : error) :
  writeBundle bf signer secretKeyRing outputFile w = (Fail e, w') →
  fs w' = fs w ∧ fds w' = fds w
  ∧ (trace w' = trace w ++ [EvLoadKeyRing (Abs cwd secretKeyRing)]
     ∨ trace w' = trace w ++ [EvLoadKeyRing (Abs cwd secretKeyRing);
                              EvClearsign bf]).
Proof.
  unfold Packager.writeBundle, bind, on_error, fail, ret, panic, WriteFile,
    emit, set_fs.
  intros H. run_all; rewrite <- ?app_assoc; auto.
Qed.

Lemma writeBundle_Ret_trace (bf : Bundle) (signer secretKeyRing : string)
    (outputFile : path) (w w' : world) :
  writeBundle bf signer secretKeyRing outputFile w = (Ret tt, w') →
  trace w' = trace w ++ [EvLoadKeyRing (Abs cwd secretKeyRing);
                         EvClearsign bf].
Proof.
  unfold Packager.writeBundle, bind, on_error, fail, ret, panic, WriteFile,
    emit, set_fs.
  intros H. run_all; by rewrite <- ?app_assoc.
Qed.

Lemma writeBundle_balanced (bf : Bundle) (signer secretKeyRing : string)
    (outputFile : path) :
  Facts.calls Facts.balanced
    (writeBundle bf signer secretKeyRing outputFile).
Proof.
  intros w.
  destruct (writeBundle bf signer secretKeyRing outputFile w) as [r w']
    eqn:H.
  revert H.
  unfold Packager.writeBundle, bind, on_error, fail, ret, panic, WriteFile,
    emit, set_fs.
  intros H. run_all;
    (eexists; split; [rewrite <- ?app_assoc; reflexivity|]); by intros acc.
Qed.

End WriteBundle.

(** ** Bodies that do not panic *)

Lemma no_panic_bind {A B} (m : M A) (k : A → M B) :
  Facts.no_panic m → (∀ a, Facts.no_panic (k a)) → Facts.no_panic (bind m k).
Proof.
  intros Hm Hk w msg. unfold bind.
  destruct (m w) as [[a | e | msg'] w1] eqn:H; [apply Hk|done|].
  specialize (Hm w msg'). by rewrite H in Hm.
Qed.

Lemma no_panic_defer {A} (d : world → world) (m : M A) :
  Facts.no_panic m → Facts.no_panic (defer d m).
Proof.
  intros Hm w msg. unfold defer. specialize (Hm w msg).
  by destruct (m w).
Qed.

Lemma no_panic_on_error {A} (wrap : error → error) (m : M A) :
  Facts.no_panic m → Facts.no_panic (on_error wrap m).
Proof.
  intros Hm w msg. unfold on_error. specialize (Hm w msg).
  by destruct (m w) as [[a | e | msg'] w1].
Qed.

Lemma no_panic_ret {A} (a : A) : Facts.no_panic (ret a).
Proof. by intros w msg. Qed.

Lemma no_panic_Create (p : path) : Facts.no_panic (Create p).
Proof. intros w msg. unfold Create. by destruct (create true (fs w) p). Qed.

Lemma no_panic_OpenFile (p : path) : Facts.no_panic (OpenFile p).
Proof. intros w msg. unfold OpenFile. by destruct (create false (fs w) p). Qed.

Lemma no_panic_Open (p : path) : Facts.no_panic (Open p).
Proof. intros w msg. unfold Open. by destruct (stat (fs w) p). Qed.

Lemma no_panic_CreateNamed (cwd : path) (name : string) :
  Facts.no_panic (CreateNamed cwd name).
Proof.
  intros w msg. unfold CreateNamed.
  destruct (namei true (fs w) cwd name); [done|].
  by apply no_panic_on_error, no_panic_Create.
Qed.

Lemma no_panic_OpenNamed (cwd : path) (name : string) :
  Facts.no_panic (OpenNamed cwd name).
Proof.
  intros w msg. unfold OpenNamed.
  destruct (namei false (fs w) cwd name); [done|].
  by apply no_panic_on_error, no_panic_Open.
Qed.

Lemma no_panic_MkdirAll (p : path) : Facts.no_panic (MkdirAll p).
Proof. intros w msg. unfold MkdirAll. by destruct (mkdir_all (fs w) p). Qed.

Lemma no_panic_Write (fd : nat) (bytes : string) :
  Facts.no_panic (Write fd bytes).
Proof.
  intros w msg. unfold Write. by destruct (fds w !! fd) as [[p off]|].
Qed.

Lemma no_panic_Copy (dst src : nat) : Facts.no_panic (Copy dst src).
Proof.
  apply no_panic_bind; [|intros; apply no_panic_Write].
  intros w msg. unfold ReadAll.
  destruct (fds w !! src) as [[p off]|]; [|done].
  by destruct (lookup_node (fs w) p) as [[|d]|].
Qed.

Lemma no_panic_archiveImage (ex : Packager.Exporter) (image : string)
    (dir : path) (logs : nat) :
  Facts.no_panic (Packager.archiveImage ex image dir logs).
Proof.
  intros w msg.
  unfold Packager.archiveImage, bind, defer, on_error, ignore_error, CopyFrom,
    bind, ImagePull, ImageSave, Create, Write, Close, emit, ret, fail.
  run_all; done.
Qed.

Lemma no_panic_for_range {A B} (body : A → M B) (l : list A) :
  (∀ x, Facts.no_panic (body x)) → Facts.no_panic (for_range body l).
Proof.
  intros Hbody. induction l as [|x l IH]; simpl; [apply no_panic_ret|].
  apply no_panic_bind; [done|]. intros y.
  apply no_panic_bind; [done|]. intros ys. apply no_panic_ret.
Qed.

Lemma no_panic_prepareArtifacts (ex : Packager.Exporter) (bun : Bundle)
    (archiveDir : path) (logs : nat) :
  Facts.no_panic (Packager.prepareArtifacts ex bun archiveDir logs).
Proof.
  intros w msg. rewrite prepareArtifacts_references.
  revert w msg. apply no_panic_bind; [apply no_panic_MkdirAll|]. intros _.
  apply no_panic_bind; [|intros; apply no_panic_ret].
  apply no_panic_for_range. intros ref. apply no_panic_archiveImage.
Qed.

(** ** [Export]: how a run can end *)

Section Export_outcomes.

Variable cwd : path.
Variable Key : Type.
Variable LoadKeyRing : gmap path node → path → error + list Key.
Variable KeyRing_Key : list Key → string → error + Key.
Variable Clearsign : Key → Bundle → string * option error.
Variable tar_gz : list (path * node) → string.

Local Abbreviation Export :=
  (Packager.Export cwd Key LoadKeyRing KeyRing_Key Clearsign tar_gz).
Local Abbreviation staging := (Spec.staging cwd).

(** X10: when [os.Stat] does not find the source (also when the source is
    the empty string), [Export] returns the error of [os.Stat], which names
    the source as it was given; when the source is a directory, [Export]
    returns the error "Bundle manifest <source> is a directory, should be a
    file".  In both cases the run ends in the world it had after making the
    log file: the log file exists, the loader was not called and no staging
    directory was made. *)
Theorem Export_rejects_missing_or_directory_source (ex : Packager.Exporter)
    (w w1 : world) (logsf : nat) :
  CreateNamed cwd (Packager.Logs ex) w = (Ret logsf, w1) →
  (stat_name (fs w1) cwd (Packager.Source ex) = inl ENOENT →
   Export ex w
   = (Fail (PathError "stat" (Packager.Source ex) ENOENT), w1))
  ∧ (stat_name (fs w1) cwd (Packager.Source ex) = inr Dir →
     Export ex w
     = (Fail (Errorf ("Bundle manifest " +:+ Packager.Source ex
                      +:+ " is a directory, should be a file")), w1)).
Proof.
  intros Hlog. unfold Packager.Export.
  rewrite (bind_Ret _ _ _ _ _ Hlog).
  split; intros Hstat; unfold bind at 1, Stat; rewrite Hstat; reflexivity.
Qed.

(** X11: when the loader rejects the source, [Export] returns its error
    behind the text "Error loading bundle: ", before anything is staged: the
    run ends in the world it had after making the log file. *)
Theorem Export_loader_failure (ex : Packager.Exporter) (w w1 : world)
    (logsf : nat) (c : string) (e : error) :
  CreateNamed cwd (Packager.Logs ex) w = (Ret logsf, w1) →
  stat_name (fs w1) cwd (Packager.Source ex) = inr (File c) →
  Packager.Loader ex (fs w1) (Abs cwd (Packager.Source ex)) = inl e →
  Export ex w = (Fail (Errorf ("Error loading bundle: " +:+ Error e)), w1).
Proof.
  intros Hlog Hstat Hload. unfold Packager.Export.
  rewrite (bind_Ret _ _ _ _ _ Hlog). unfold bind at 1, Stat.
  rewrite Hstat. simpl. unfold bind at 1, on_error, Packager.Load.
  by rewrite Hload.
Qed.

(** X12: once the staging directory was made, [Export] removes it however
    the rest of the run ends: in the world [Export] leaves, nothing exists
    at or below the staging directory. *)
Theorem Export_removes_staging_dir (ex : Packager.Exporter) (w w1 w2 : world)
    (logsf : nat) (c : string) (bun : Bundle) :
  CreateNamed cwd (Packager.Logs ex) w = (Ret logsf, w1) →
  stat_name (fs w1) cwd (Packager.Source ex) = inr (File c) →
  Packager.Loader ex (fs w1) (Abs cwd (Packager.Source ex)) = inr bun →
  MkdirAll (staging bun) w1 = (Ret tt, w2) →
  Spec.under (staging bun) (fs (Export ex w).2) = ∅.
Proof.
  unfold Spec.staging. intros Hlog Hstat Hload Hmk. unfold Packager.Export.
  rewrite (bind_Ret _ _ _ _ _ Hlog). unfold bind at 1, Stat.
  rewrite Hstat. simpl. unfold bind at 1, on_error at 1, Packager.Load.
  rewrite Hload. rewrite (bind_Ret _ _ _ _ _ Hmk). unfold defer.
  match goal with |- context [let '(_, _) := ?m w2 in _] =>
    destruct (m w2) as [r w3] end.
  simpl. apply under_remove_all.
Qed.

(** X13: [Export] panics in one case only: when [os.Stat] on the source
    fails with an error other than "does not exist" (the source lies below
    a regular file, or it names a regular file and ends in [/]); the panic
    is the nil dereference of [fi.IsDir()], right after the log file was
    made.  (The loader, the Docker client, package [signature] and the
    archiver are calls that return.) *)
Theorem Export_panics_only_on_stat_error (ex : Packager.Exporter)
    (w w' : world) (msg : string) :
  Export ex w = (Panic msg, w') →
  ∃ logsf e,
    CreateNamed cwd (Packager.Logs ex) w = (Ret logsf, w')
    ∧ stat_name (fs w') cwd (Packager.Source ex) = inl e
    ∧ e ≠ ENOENT
    ∧ msg = "runtime error: invalid memory address or nil pointer dereference".
Proof.
  unfold Packager.Export. intros H.
  apply bind_inv in H as [(logsf & w1 & Hlog & H) | [(e & _ & ?) | (m & H & _)]];
    [|done|by destruct (no_panic_CreateNamed cwd (Packager.Logs ex) w m);
             rewrite H].
  exists logsf.
  unfold bind at 1, Stat in H.
  destruct (stat_name (fs w1) cwd (Packager.Source ex)) as [e|n] eqn:Hstat;
    simpl in H.
  { exists e. destruct e; [done|..]; injection H as <- <-; done. }
  exfalso. destruct n as [|c]; [done|].
  match type of H with ?m w1 = _ => assert (Facts.no_panic m) as Hsafe end.
  { apply no_panic_bind.
    { apply no_panic_on_error. intros w0 m. unfold Packager.Load.
      by destruct (Packager.Loader ex _ _). }
    intros bun. cbv zeta.
    apply no_panic_bind; [apply no_panic_MkdirAll|]. intros _.
    apply no_panic_defer.
    apply no_panic_bind; [apply no_panic_OpenNamed|]. intros from.
    apply no_panic_bind; [apply no_panic_OpenFile|]. intros to.
    apply no_panic_bind; [apply no_panic_Copy|]. intros _.
    apply no_panic_bind.
    { destruct (Packager.Thin ex); simpl; [apply no_panic_ret|].
      apply no_panic_bind.
      - apply no_panic_on_error, no_panic_prepareArtifacts.
      - intros bun'. apply no_panic_on_error, writeBundle_no_panic. }
    intros _.
    apply no_panic_bind; [apply no_panic_on_error, no_panic_CreateNamed|].
    intros writer. apply no_panic_bind; [by intros w0 m|].
    intros rc. apply no_panic_Write. }
  specialize (Hsafe w1 msg). by rewrite H in Hsafe.
Qed.

End Export_outcomes.

(** ** The calls a run of [Export] makes *)

Lemma open_after_app (acc : list stream_id) (t1 t2 : list event) :
  open_after acc (t1 ++ t2) = open_after (open_after acc t1) t2.
Proof.
  revert acc. induction t1 as [|ev t1 IH]; intros acc; [done|].
  destruct ev as [ref [] | ref [] | ref | s | ring | b | d m]; simpl;
    apply IH.
Qed.

Lemma balanced_app (t1 t2 : list event) :
  Facts.balanced t1 → Facts.balanced t2 → Facts.balanced (t1 ++ t2).
Proof. intros H1 H2 acc. by rewrite open_after_app, H1, H2. Qed.

Section Calls.

Variable P : list event → Prop.
Hypothesis P_nil : P [].
Hypothesis P_app : ∀ t1 t2, P t1 → P t2 → P (t1 ++ t2).

Lemma calls_silent {A} (m : M A) :
  (∀ w w' r, m w = (r, w') → trace w' = trace w) → Facts.calls P m.
Proof.
  intros Hm w. exists []. split; [|done].
  destruct (m w) as [r w'] eqn:H. rewrite app_nil_r. by eapply Hm.
Qed.

Lemma calls_bind {A B} (m : M A) (k : A → M B) :
  Facts.calls P m → (∀ a, Facts.calls P (k a)) → Facts.calls P (bind m k).
Proof.
  intros Hm Hk w. destruct (Hm w) as (t1 & Ht1 & HP1). unfold bind.
  destruct (m w) as [[a | e | msg] w1]; simpl in Ht1; [|by exists t1..].
  destruct (Hk a w1) as (t2 & Ht2 & HP2). exists (t1 ++ t2).
  split; [by rewrite Ht2, Ht1, app_assoc | by apply P_app].
Qed.

Lemma calls_on_error {A} (wrap : error → error) (m : M A) :
  Facts.calls P m → Facts.calls P (on_error wrap m).
Proof.
  intros Hm w. destruct (Hm w) as (t & Ht & HP). exists t. unfold on_error.
  by destruct (m w) as [[a | e | msg] w1].
Qed.

Lemma calls_defer {A} (d : world → world) (m : M A) :
  (∀ w, trace (d w) = trace w) → Facts.calls P m →
  Facts.calls P (defer d m).
Proof.
  intros Hd Hm w. destruct (Hm w) as (t & Ht & HP). exists t. unfold defer.
  destruct (m w) as [r w1]. simpl in *. by rewrite Hd.
Qed.

Lemma calls_for_range {A B} (body : A → M B) (l : list A) :
  (∀ x, Facts.calls P (body x)) → Facts.calls P (for_range body l).
Proof.
  intros Hbody. induction l as [|x l IH]; simpl.
  - apply calls_silent. by intros w w' r [= _ <-].
  - apply calls_bind; [done|]. intros y.
    apply calls_bind; [done|]. intros ys.
    apply calls_silent. by intros w w' r [= _ <-].
Qed.

Lemma prepareArtifacts_calls (ex : Packager.Exporter) (bun : Bundle)
    (archiveDir : path) (logs : nat) :
  (∀ image dir, Facts.calls P (Packager.archiveImage ex image dir logs)) →
  Facts.calls P (Packager.prepareArtifacts ex bun archiveDir logs).
Proof.
  intros Harchive. unfold Packager.prepareArtifacts.
  apply calls_bind; [apply calls_silent, MkdirAll_trace|]. intros _.
  apply calls_bind.
  { apply calls_for_range. intros entry.
    apply calls_bind; [done|]. intros r.
    apply calls_silent. by intros w w' r' [= _ <-]. }
  intros images. apply calls_bind.
  { apply calls_for_range. intros in_.
    apply calls_bind; [done|]. intros r.
    apply calls_silent. by intros w w' r' [= _ <-]. }
  intros invocationImages. apply calls_silent. by intros w w' r' [= _ <-].
Qed.

Variable cwd : path.
Variable Key : Type.
Variable LoadKeyRing : gmap path node → path → error + list Key.
Variable KeyRing_Key : list Key → string → error + Key.
Variable Clearsign : Key → Bundle → string * option error.
Variable tar_gz : list (path * node) → string.

(** The calls of [Export] are those of [prepareArtifacts] and [writeBundle],
    which only a thick export runs, and the making of the archive. *)
Lemma Export_calls (ex : Packager.Exporter) :
  (Packager.Thin ex = false →
   ∀ bun dir logs,
     Facts.calls P (Packager.prepareArtifacts ex bun dir logs)) →
  (Packager.Thin ex = false →
   ∀ bf out,
     Facts.calls P
       (Packager.writeBundle cwd Key LoadKeyRing KeyRing_Key Clearsign bf
          (Packager.Signer ex) (Packager.SecretKeyRing ex) out)) →
  (∀ d members, P [EvTar d members]) →
  Facts.calls P
    (Packager.Export cwd Key LoadKeyRing KeyRing_Key Clearsign tar_gz ex).
Proof.
  intros Hprep Hwrite Htar. unfold Packager.Export.
  apply calls_bind; [apply calls_silent, CreateNamed_trace|]. intros logsf.
  apply calls_bind; [apply calls_silent, Stat_trace|]. intros [fi err].
  simpl. destruct err as [e|].
  { destruct (IsNotExist e); apply calls_silent; by intros w w' r [= _ <-]. }
  destruct fi as [[|c]|];
    [apply calls_silent; by intros w w' r [= _ <-]|
    |apply calls_silent; by intros w w' r [= _ <-]].
  apply calls_bind.
  { apply calls_on_error, calls_silent. unfold Packager.Load.
    intros w w' r H. by run_all. }
  intros bun. cbv zeta.
  apply calls_bind; [apply calls_silent, MkdirAll_trace|]. intros _.
  apply calls_defer; [done|].
  apply calls_bind; [apply calls_silent, OpenNamed_trace|]. intros from.
  apply calls_bind; [apply calls_silent, OpenFile_trace|]. intros to.
  apply calls_bind; [apply calls_silent, Copy_trace|]. intros _.
  apply calls_bind.
  { destruct (Packager.Thin ex); simpl.
    - apply calls_silent. by intros w w' r [= _ <-].
    - apply calls_bind; [by apply calls_on_error, Hprep|]. intros bun'.
      by apply calls_on_error, Hwrite. }
  intros _.
  apply calls_bind; [apply calls_on_error, calls_silent, CreateNamed_trace|].
  intros writer. apply calls_bind; [|intros rc; apply calls_silent, Write_trace].
  intros w. eexists. split; [reflexivity|apply Htar].
Qed.

End Calls.

Section Export_calls_made.

Variable cwd : path.
Variable Key : Type.
Variable LoadKeyRing : gmap path node → path → error + list Key.
Variable KeyRing_Key : list Key → string → error + Key.
Variable Clearsign : Key → Bundle → string * option error.
Variable tar_gz : list (path * node) → string.

Local Abbreviation Export :=
  (Packager.Export cwd Key LoadKeyRing KeyRing_Key Clearsign tar_gz).
Local Abbreviation staging := (Spec.staging cwd).

(** X14: however a run of [Export] ends, thin or thick, every stream the
    Docker client handed out during the run has been closed when [Export]
    returns: the streams open after its calls are the ones that were open
    before. *)
Theorem Export_closes_every_stream (ex : Packager.Exporter) (w : world) :
  let rw := Export ex w in
  ∃ t, trace rw.2 = trace w ++ t ∧ ∀ acc, open_after acc t = acc.
Proof.
  apply (Export_calls Facts.balanced); [done|apply balanced_app|..].
  - intros _ bun dir logs.
    apply prepareArtifacts_calls; [done|apply balanced_app|].
    intros image dir'. apply archiveImage_balanced.
  - intros _ bf out. apply writeBundle_balanced.
  - by intros d members acc.
Qed.

(** X15: a thin export makes no call to the Docker client, loads no key
    ring and signs nothing, however it ends: the only calls it adds are to
    the making of the archive. *)
Theorem Export_thin_calls (ex : Packager.Exporter) (w : world) :
  Packager.Thin ex = true →
  ∃ t, trace (Export ex w).2 = trace w ++ t ∧ Forall Facts.is_tar t.
Proof.
  intros Hthin.
  apply (Export_calls (Forall Facts.is_tar));
    [done|apply Forall_app_2|congruence..|].
  intros d members. by repeat constructor.
Qed.

Lemma prepareArtifacts_Ret (ex : Packager.Exporter) (bun bun' : Bundle)
    (archiveDir : path) (logs : nat) (w w' : world) :
  Packager.prepareArtifacts ex bun archiveDir logs w = (Ret bun', w') →
  Name bun' = Name bun ∧ Version bun' = Version bun
  ∧ (Images bun').*1 = (Images bun).*1
  ∧ Spec.references bun' = Spec.references bun
  ∧ Spec.digests bun'
    = replicate (length (Spec.references bun)) "tempchecksum".
Proof.
  rewrite prepareArtifacts_references.
  intros ([] & w1 & _ & (rs & w2 & Hrs & [= <- <-])%bind_Ret_inv)%bind_Ret_inv.
  pose proof (for_range_archiveImage_sums _ _ _ _ _ _ _ Hrs) as Hsums.
  pose proof (for_range_length _ _ _ _ _ Hrs) as Hlen.
  destruct (references_with_digests bun (rs.*2)) as [Hr Hd].
  { by rewrite length_fmap. }
  rewrite Hr, Hd, Hsums. repeat split.
  simpl. apply fmap_zip_with_left; [done|].
  rewrite length_replicate. unfold Spec.references.
  rewrite length_app, length_fmap. lia.
Qed.

(** X16: when [prepareArtifacts] returns no error, the bundle it hands
    back has the name, the version, the image keys (in their order) and the
    references of the bundle it was given, and every digest in it is the
    placeholder [tempchecksum]. *)
Theorem prepareArtifacts_result (ex : Packager.Exporter) (bun bun' : Bundle)
    (archiveDir : path) (logs : nat) (w w' : world) :
  Packager.prepareArtifacts ex bun archiveDir logs w = (Ret bun', w') →
  Name bun' = Name bun ∧ Version bun' = Version bun
  ∧ (Images bun').*1 = (Images bun).*1
  ∧ Spec.references bun' = Spec.references bun
  ∧ Spec.digests bun'
    = replicate (length (Spec.references bun)) "tempchecksum".
Proof. apply prepareArtifacts_Ret. Qed.

(** X17: the calls of a thick export that returns no error, in their
    order: calls to the Docker client, then the loading of the secret key
    ring, then one [Clearsign] — of the bundle the loader gave with every
    digest set to the placeholder — and last the making of the archive of
    the staging directory. *)
Theorem Export_thick_signs_updated_bundle (ex : Packager.Exporter)
    (w w1 w' : world) (logsf : nat) (bun : Bundle) :
  Packager.Thin ex = false →
  CreateNamed cwd (Packager.Logs ex) w = (Ret logsf, w1) →
  Packager.Loader ex (fs w1) (Abs cwd (Packager.Source ex)) = inr bun →
  Export ex w = (Ret tt, w') →
  ∃ t bun' members,
    trace w'
    = trace w ++ t ++ [EvLoadKeyRing (Abs cwd (Packager.SecretKeyRing ex));
                       EvClearsign bun'; EvTar (staging bun) members]
    ∧ Forall Spec.docker_event t
    ∧ Name bun' = Name bun ∧ Version bun' = Version bun
    ∧ Spec.references bun' = Spec.references bun
    ∧ Spec.digests bun'
      = replicate (length (Spec.references bun)) "tempchecksum".
Proof.
  intros Hthin Hlog Hload Hexp.
  apply Export_Ret_inv in Hexp
      as (logsf' & w1' & c & bun0 & w2 & w3 & w4 & Hlog' & Hstat & Hload'
          & Hmk & Hcopy & Hmode & Hcreate & Hfs & Htrace).
  rewrite Hlog in Hlog'. injection Hlog' as <- <-.
  rewrite Hload in Hload'. injection Hload' as <-.
  rewrite Hthin in Hmode. destruct Hmode as (bun' & wp & Hprep & Hwrite).
  apply CreateNamed_trace in Hlog. apply MkdirAll_trace in Hmk.
  apply bind_Ret_inv in Hcopy
      as (from & wa & Hopen%OpenNamed_trace & Hcopy).
  apply bind_Ret_inv in Hcopy
      as (to & wb & Hto%OpenFile_trace & Hcopy%Copy_trace).
  destruct (prepareArtifacts_Ret _ _ _ _ _ _ _ Hprep)
    as (Hname & Hversion & _ & Hrefs & Hdigests).
  rewrite prepareArtifacts_references in Hprep.
  apply bind_Ret_inv in Hprep as ([] & wm & Hmk'%MkdirAll_trace & Hprep).
  apply bind_Ret_inv in Hprep as (rs & wr & Hrs & [= _ <-]).
  apply for_range_archiveImage_trace in Hrs as (t & Ht & Hdocker).
  apply writeBundle_Ret_trace in Hwrite.
  exists t, bun'. eexists. split; [|done].
  rewrite Htrace, Hwrite, Ht, Hmk', Hcopy, Hto, Hopen, Hmk, Hlog.
  by rewrite <- !app_assoc.
Qed.

End Export_calls_made.

(** ** [getReference] *)

Lemma HasPrefix_cons (a b : ascii) (s prefix : string) :
  PullCmd.HasPrefix (String b s) (String a prefix)
  = Ascii.eqb a b && PullCmd.HasPrefix s prefix.
Proof. done. Qed.

Lemma HasPrefix_empty (a : ascii) (prefix : string) :
  PullCmd.HasPrefix "" (String a prefix) = false.
Proof. done. Qed.

Lemma Cut_first (scheme name : string) :
  PullCmd.Cut scheme "://" = None →
  PullCmd.Cut (scheme +:+ "://" +:+ name) "://" = Some (scheme, name).
Proof.
  assert ("://" +:+ name = String ":" (String "/" (String "/" name))) as ->.
  { by rewrite !append_cons, append_empty_l. }
  induction scheme as [|c s IH].
  { intros _. rewrite append_empty_l. reflexivity. }
  intros H. rewrite append_cons.
  change (PullCmd.Cut (String c s) "://")
    with (if PullCmd.HasPrefix (String c s) "://" then Some ("", drop_bytes 3 (String c s))
          else match PullCmd.Cut s "://" with
               | Some (before, after) => Some (String c before, after)
               | None => None
               end) in H.
  destruct (PullCmd.HasPrefix (String c s) "://") eqn:Hpre; [done|].
  destruct (PullCmd.Cut s "://") as [[before after]|] eqn:Hcut; [done|].
  assert (PullCmd.HasPrefix
            (String c (s +:+ String ":" (String "/" (String "/" name))))
            "://" = false) as Hpre'.
  { clear IH Hcut H. rewrite HasPrefix_cons in *.
    destruct (Ascii.eqb ":" c); [|done]. rewrite andb_true_l in *.
    destruct s as [|d s']; rewrite ?append_empty_l, ?append_cons; [done|].
    rewrite HasPrefix_cons in *.
    destruct (Ascii.eqb "/" d); [|done]. rewrite andb_true_l in *.
    destruct s' as [|e s'']; rewrite ?append_empty_l, ?append_cons; [done|].
    rewrite HasPrefix_cons in *. by destruct (Ascii.eqb "/" e). }
  change (PullCmd.Cut
            (String c (s +:+ String ":" (String "/" (String "/" name))))
            "://")
    with (if PullCmd.HasPrefix
               (String c (s +:+ String ":" (String "/" (String "/" name))))
               "://"
          then Some ("", drop_bytes 3
                           (String c (s +:+ String ":"
                                        (String "/" (String "/" name)))))
          else match PullCmd.Cut
                       (s +:+ String ":" (String "/" (String "/" name)))
                       "://" with
               | Some (before, after) => Some (String c before, after)
               | None => None
               end).
  by rewrite Hpre', IH.
Qed.

Section GetReference.

Variable Named : Type.
Variable NamedTagged : Type.
Variable ParseNormalizedNamed : string → error + Named.
Variable IsNameOnly : Named → bool.
Variable WithTag : Named → string → error + NamedTagged.
Variable as_NamedTagged : Named → option NamedTagged.
Variable Named_String : Named → string.
Variable Quote : string → string.

Local Abbreviation getReference :=
  (PullCmd.getReference Named NamedTagged ParseNormalizedNamed IsNameOnly
     WithTag as_NamedTagged Named_String Quote).

(** X18: [getReference] does not look at the scheme of a bundle name: for
    a scheme and a name that do not contain [://], the outcome for
    [scheme://name] is the outcome for [name] alone. *)
Theorem getReference_drops_scheme (scheme name : string) :
  PullCmd.Cut scheme "://" = None →
  PullCmd.Cut name "://" = None →
  getReference (scheme +:+ "://" +:+ name) = getReference name.
Proof.
  intros Hscheme Hname. unfold PullCmd.getReference, PullCmd.SplitN2.
  by rewrite (Cut_first _ _ Hscheme), Hname.
Qed.

(** X19: [getReference] cuts a bundle name at the first [://] only: what
    follows it is the name that is parsed, with any further [://] left in
    it. *)
Theorem getReference_first_separator (scheme rest : string) (e : error) :
  PullCmd.Cut scheme "://" = None →
  ParseNormalizedNamed rest = inl e →
  getReference (scheme +:+ "://" +:+ rest)
  = Fail (Errorf (Quote rest +:+ " is not a valid bundle name: "
                  +:+ Error e)).
Proof.
  intros Hscheme Hparse. unfold PullCmd.getReference, PullCmd.SplitN2.
  rewrite (Cut_first _ _ Hscheme). simpl. by rewrite Hparse.
Qed.

(** X20: [getReference] panics in one case only: when the name has neither
    tag nor digest and the tag [latest] cannot be added to it. *)
Theorem getReference_panics_only_on_default_tag (bundleName msg : string) :
  getReference bundleName = Panic msg →
  ∃ name ref e,
    ParseNormalizedNamed name = inr ref ∧ IsNameOnly ref = true
    ∧ WithTag ref "latest" = inl e ∧ msg = Error e.
Proof.
  unfold PullCmd.getReference. intros H.
  match type of H with
  | context [ParseNormalizedNamed ?n] =>
      exists n; destruct (ParseNormalizedNamed n) as [e|ref]; [done|]
  end.
  exists ref. destruct (IsNameOnly ref).
  - destruct (WithTag ref "latest") as [e|r]; [|done].
    exists e. by injection H as <-.
  - by destruct (as_NamedTagged ref).
Qed.

End GetReference.

(** ** [loadBundle] and [getLoader] *)

Section LoadBundle.

Variable KeyRing : Type.
Variable homePath : string.
Variable loadVerifyingKeyRings : string → error + KeyRing.
Variable NewDetectingLoader : Cmd.Loader.
Variable NewSecureLoader : KeyRing → Cmd.Loader.

Local Abbreviation getLoader :=
  (Cmd.getLoader KeyRing loadVerifyingKeyRings NewDetectingLoader
     NewSecureLoader).
Local Abbreviation loadBundle :=
  (Cmd.loadBundle KeyRing homePath loadVerifyingKeyRings NewDetectingLoader
     NewSecureLoader).

(** X21: [loadBundle] hands back the bundle its loader returned, also
    beside an error, and returns no error exactly when a loader was
    obtained and its [Load] returned none; when no loader can be obtained,
    it returns the error of [getLoader] and no bundle, and nothing is
    loaded. *)
Theorem loadBundle_passes_loader_result (bundleFile : string)
    (insecure : bool) :
  let r := loadBundle bundleFile insecure in
  (∀ l, getLoader homePath insecure = inr l → r.1 = (l bundleFile).1)
  ∧ (∀ e, getLoader homePath insecure = inl e → r = (None, Some e))
  ∧ (r.2 = None
     ↔ ∃ l, getLoader homePath insecure = inr l ∧ (l bundleFile).2 = None).
Proof.
  cbv zeta. unfold Cmd.loadBundle.
  destruct (getLoader homePath insecure) as [e|l] eqn:Hl.
  - split; [done|]. split; [by intros ? [= <-]|].
    split; [done|]. by intros (l & ? & _).
  - destruct (l bundleFile) as [bun err] eqn:Hload.
    split; [intros ? [= <-]; rewrite Hload; by run_all|].
    split; [done|]. split.
    + intros H. exists l. rewrite Hload. split; [done|]. by run_all.
    + intros (l' & [= <-] & H). rewrite Hload in H. simpl in H. by subst.
Qed.

End LoadBundle.

(** ** [Digester.Digest]: what it returns *)

(** X22: a digest that [Digest] returns is the digest of the bytes the
    client saved for the image of the digester, read without an error, and
    the stream has been closed: the calls made are [ImageSave],
    [FromReader] and [Close], in this order. *)
Theorem Digest_returns_digest_of_saved_image (Canonical : string → string)
    (d : Digester.Digester) (w w' : world) (x : string) :
  Digester.Digest Canonical d w = (Ret x, w') →
  ∃ s, save_of (Digester.Client d) (Digester.Image d) = inr s
       ∧ read_err s = None
       ∧ x = Canonical (data s)
       ∧ trace w' = trace w ++ [EvImageSave (Digester.Image d) true;
                                EvFromReader (Digester.Image d);
                                EvClose (SavedImage (Digester.Image d))]
       ∧ fs w' = fs w.
Proof.
  unfold Digester.Digest, bind, defer, Digester.ImageSave,
    Digester.FromReader, Close, emit, ret, panic.
  intros H. run_all. eexists. repeat split; try done.
  by rewrite <- !app_assoc.
Qed.

(** X23: the error of [ImageSave] is never returned by [Digest]: an error
    that [Digest] returns is the error that ended the reading of a saved
    stream, and [Digest] panics exactly when [ImageSave] fails (its error
    is overwritten and the nil reader is read). *)
Theorem Digest_save_error_is_lost (Canonical : string → string)
    (d : Digester.Digester) (w : world) :
  let r := (Digester.Digest Canonical d w).1 in
  (∀ e, r = Fail e →
        ∃ s, save_of (Digester.Client d) (Digester.Image d) = inr s
             ∧ read_err s = Some e)
  ∧ ((∃ msg, r = Panic msg)
     ↔ ∃ e, save_of (Digester.Client d) (Digester.Image d) = inl e).
Proof.
  cbv zeta.
  unfold Digester.Digest, bind, defer, Digester.ImageSave,
    Digester.FromReader, Close, emit, ret, panic.
  destruct (save_of (Digester.Client d) (Digester.Image d)) as [e|s]; simpl.
  - split; [done|]. split; [by exists e | by eexists].
  - destruct (read_err s) as [e|] eqn:Herr; simpl.
    + split; [intros ? [= <-]; by exists s|].
      split; [by intros [? ?] | by intros [? ?]].
    + split; [done|]. split; [by intros [? ?] | by intros [? ?]].
Qed.

(** ** The example driver *)

(** X24: the driver exits with code 0 in two cases only: when its first
    argument is [--handles], and, when the first argument is neither
    [--handles] nor [--help], when [jq] exits with code 0 on the standard
    input; with [--handles] or [--help] the standard input is not read. *)
Theorem driver_exit_code (jq_action jq_action' : string → string * nat)
    (args : list string) (stdin stdin' : string) :
  let arg1 := nth 0 args "" in
  (Driver.exit_code (Driver.driver jq_action args stdin) = 0
   ↔ arg1 = "--handles"
     ∨ arg1 ≠ "--handles" ∧ arg1 ≠ "--help" ∧ (jq_action stdin).2 = 0)
  ∧ (arg1 = "--handles" ∨ arg1 = "--help" →
     Driver.driver jq_action args stdin
     = Driver.driver jq_action' args stdin').
Proof.
  cbv zeta. unfold Driver.driver.
  destruct (String.eqb_spec (nth 0 args "") "--handles") as [-> | Hh].
  { split; [|done]. split; [by left | done]. }
  destruct (String.eqb_spec (nth 0 args "") "--help") as [-> | Hp].
  { split; [|done]. split; [done|]. by intros [? | (_ & ? & _)]. }
  simpl. split; [|by intros [? | ?]].
  split; [by right | by intros [? | (_ & _ & ?)]].
Qed.

(** ** The further properties at concrete inputs *)

Lemma archiveImage_pull_failure_witness :
  Packager.archiveImage (Facts.exporter_with Facts.offline Examples.app)
    "postgres:12" ["work"; "artifacts"] 0 Examples.prepared
  = (Fail (Errorf ("Error pulling image " +:+ "postgres:12" +:+ ": "
                   +:+ Error (Errorf "registry unreachable"))),
     World (fs Examples.prepared) (fds Examples.prepared)
           (trace Examples.prepared ++ [EvImagePull "postgres:12" false])).
Proof.
  apply (archiveImage_pull_failure
           (Facts.exporter_with Facts.offline Examples.app) "postgres:12"
           ["work"; "artifacts"] 0 Examples.prepared
           (Errorf "registry unreachable")).
  reflexivity.
Defined.

Lemma archiveImage_read_failure_witness :
  let ex := Facts.exporter_with Facts.flaky Examples.app in
  let rw := Packager.archiveImage ex "postgres:12" ["work"; "artifacts"] 0
              Examples.prepared in
  let wl := Spec.written 0 "pulled postgres:12" Examples.prepared in
  rw.1 = Fail (Errorf "unexpected EOF")
  ∧ fs rw.2
    = <[ ["work"; "artifacts"; "postgres-12.tar"] := File "lay" ]> (fs wl)
  ∧ trace rw.2
    = [EvImagePull "postgres:12" true; EvImageSave "postgres:12" true;
       EvClose (SavedImage "postgres:12"); EvClose (PullLogs "postgres:12")].
Proof.
  apply (archiveImage_read_failure
           (Facts.exporter_with Facts.flaky Examples.app) "postgres:12"
           ["work"; "artifacts"] 0 Examples.prepared
           {| data := "pulled postgres:12"; read_err := None |}
           {| data := "lay"; read_err := Some (Errorf "unexpected EOF") |}
           (Errorf "unexpected EOF")).
  - reflexivity.
  - reflexivity.
  - reflexivity.
  - vm_compute. reflexivity.
Defined.

Lemma writeBundle_signs_and_writes_witness :
  Packager.writeBundle Examples.cwd string (Examples.ring_of ["alice"; "bob"])
    Examples.key_by_name Examples.sign Examples.app "bob" "ring"
    ["work"; "bundle.cnab"] (Examples.start Examples.home)
  = (Ret tt,
     World (<[ ["work"; "bundle.cnab"]
               := File ("signed by bob" +:+ String "010"%char "") ]>
              Examples.home)
           []
           ([] ++ [EvLoadKeyRing (Abs Examples.cwd "ring");
                   EvClearsign Examples.app])).
Proof.
  apply (writeBundle_signs_and_writes Examples.cwd string
           (Examples.ring_of ["alice"; "bob"]) Examples.key_by_name
           Examples.sign Examples.app "bob" "ring" ["work"; "bundle.cnab"]
           (Examples.start Examples.home) "alice" "bob" ["bob"]
           "signed by bob"
           (<[ ["work"; "bundle.cnab"] := File "" ]> Examples.home)).
  - reflexivity.
  - right. split; [done|]. vm_compute. reflexivity.
  - reflexivity.
  - vm_compute. reflexivity.
Defined.

Lemma writeBundle_unknown_signer_witness :
  Packager.writeBundle Examples.cwd string (Examples.ring_of ["alice"])
    Examples.key_by_name Examples.sign Examples.app "carol" "ring"
    ["work"; "bundle.cnab"] (Examples.start Examples.home)
  = (Fail (Errorf "key not found"),
     World Examples.home [] ([] ++ [EvLoadKeyRing (Abs Examples.cwd "ring")])).
Proof.
  apply (writeBundle_unknown_signer Examples.cwd string
           (Examples.ring_of ["alice"]) Examples.key_by_name Examples.sign
           Examples.app "carol" "ring" ["work"; "bundle.cnab"]
           (Examples.start Examples.home) "alice" []
           (Errorf "key not found")).
  - reflexivity.
  - done.
  - vm_compute. reflexivity.
Defined.

Lemma writeBundle_failure_writes_nothing_witness :
  let w := Examples.start Examples.home in
  let w' := (Packager.writeBundle Examples.cwd string (Examples.ring_of [])
               Examples.key_by_name Examples.sign Examples.app "" "ring"
               ["work"; "bundle.cnab"] w).2 in
  fs w' = fs w ∧ fds w' = fds w
  ∧ (trace w' = trace w ++ [EvLoadKeyRing (Abs Examples.cwd "ring")]
     ∨ trace w' = trace w ++ [EvLoadKeyRing (Abs Examples.cwd "ring");
                              EvClearsign Examples.app]).
Proof.
  apply (writeBundle_failure_writes_nothing Examples.cwd string
           (Examples.ring_of []) Examples.key_by_name Examples.sign
           Examples.app "" "ring" ["work"; "bundle.cnab"]
           (Examples.start Examples.home) _
           (Errorf "no signing keys are present in the keyring")).
  vm_compute. reflexivity.
Defined.

Lemma Export_rejects_missing_or_directory_source_witness :
  let w := Examples.start Examples.home in
  let w1 := (CreateNamed Examples.cwd "export.log" w).2 in
  Examples.Export [] (Facts.exporter_rejecting "nowhere.json" "bad") w
  = (Fail (PathError "stat" "nowhere.json" ENOENT), w1)
  ∧ Examples.Export [] (Facts.exporter_rejecting "" "bad") w
    = (Fail (PathError "stat" "" ENOENT), w1)
  ∧ Examples.Export []
      (Facts.exporter_rejecting "nodir/../bundle.cnab" "bad") w
    = (Fail (PathError "stat" "nodir/../bundle.cnab" ENOENT), w1)
  ∧ Examples.Export [] (Facts.exporter_rejecting "." "bad") w
    = (Fail (Errorf ("Bundle manifest " +:+ "."
                     +:+ " is a directory, should be a file")), w1).
Proof.
  split; [|split; [|split]].
  - apply (Export_rejects_missing_or_directory_source Examples.cwd string
             (Examples.ring_of []) Examples.key_by_name Examples.sign
             Examples.toy_tar (Facts.exporter_rejecting "nowhere.json" "bad")
             (Examples.start Examples.home)
             (CreateNamed Examples.cwd "export.log"
                (Examples.start Examples.home)).2 0).
    + vm_compute. reflexivity.
    + vm_compute. reflexivity.
  - apply (Export_rejects_missing_or_directory_source Examples.cwd string
             (Examples.ring_of []) Examples.key_by_name Examples.sign
             Examples.toy_tar (Facts.exporter_rejecting "" "bad")
             (Examples.start Examples.home)
             (CreateNamed Examples.cwd "export.log"
                (Examples.start Examples.home)).2 0).
    + vm_compute. reflexivity.
    + vm_compute. reflexivity.
  - apply (Export_rejects_missing_or_directory_source Examples.cwd string
             (Examples.ring_of []) Examples.key_by_name Examples.sign
             Examples.toy_tar (Facts.exporter_rejecting "nodir/../bundle.cnab" "bad")
             (Examples.start Examples.home)
             (CreateNamed Examples.cwd "export.log"
                (Examples.start Examples.home)).2 0).
    + vm_compute. reflexivity.
    + vm_compute. reflexivity.
  - apply (Export_rejects_missing_or_directory_source Examples.cwd string
             (Examples.ring_of []) Examples.key_by_name Examples.sign
             Examples.toy_tar (Facts.exporter_rejecting "." "bad")
             (Examples.start Examples.home)
             (CreateNamed Examples.cwd "export.log"
                (Examples.start Examples.home)).2 0).
    + vm_compute. reflexivity.
    + vm_compute. reflexivity.
Defined.

Lemma Export_loader_failure_witness :
  let w := Examples.start Examples.home in
  Examples.Export [] (Facts.exporter_rejecting "bundle.cnab" "bad json") w
  = (Fail (Errorf ("Error loading bundle: " +:+ Error (Errorf "bad json"))),
     (CreateNamed Examples.cwd "export.log" w).2).
Proof.
  apply (Export_loader_failure Examples.cwd string (Examples.ring_of [])
           Examples.key_by_name Examples.sign Examples.toy_tar
           (Facts.exporter_rejecting "bundle.cnab" "bad json")
           (Examples.start Examples.home)
           (CreateNamed Examples.cwd "export.log"
              (Examples.start Examples.home)).2 0 "SIGNED"
           (Errorf "bad json")).
  - vm_compute. reflexivity.
  - vm_compute. reflexivity.
  - reflexivity.
Defined.

Lemma Export_removes_staging_dir_witness :
  let ex := Examples.exporter "bundle.cnab" false Examples.broken in
  let rw := Examples.Export ["key"] ex (Examples.start Examples.home) in
  Spec.under (Spec.staging Examples.cwd Examples.broken) (fs rw.2) = ∅.
Proof.
  apply (Export_removes_staging_dir Examples.cwd string
           (Examples.ring_of ["key"]) Examples.key_by_name Examples.sign
           Examples.toy_tar
           (Examples.exporter "bundle.cnab" false Examples.broken)
           (Examples.start Examples.home)
           (CreateNamed Examples.cwd "export.log"
              (Examples.start Examples.home)).2
           (MkdirAll (Spec.staging Examples.cwd Examples.broken)
              (CreateNamed Examples.cwd "export.log"
                 (Examples.start Examples.home)).2).2
           0 "SIGNED" Examples.broken).
  - vm_compute. reflexivity.
  - vm_compute. reflexivity.
  - reflexivity.
  - vm_compute. reflexivity.
Defined.

Lemma Export_panics_only_on_stat_error_witness :
  let ex := Examples.exporter "bundle.cnab/" true Examples.app in
  let w := Examples.start Examples.home in
  ∃ logsf e,
    CreateNamed Examples.cwd (Packager.Logs ex) w
    = (Ret logsf, (Examples.Export ["key"] ex w).2)
    ∧ stat_name (fs (Examples.Export ["key"] ex w).2) Examples.cwd
        (Packager.Source ex) = inl e
    ∧ e ≠ ENOENT
    ∧ "runtime error: invalid memory address or nil pointer dereference"
      = "runtime error: invalid memory address or nil pointer dereference".
Proof.
  apply (Export_panics_only_on_stat_error Examples.cwd string
           (Examples.ring_of ["key"]) Examples.key_by_name Examples.sign
           Examples.toy_tar
           (Examples.exporter "bundle.cnab/" true Examples.app)
           (Examples.start Examples.home)
           (Examples.Export ["key"]
              (Examples.exporter "bundle.cnab/" true Examples.app)
              (Examples.start Examples.home)).2
           "runtime error: invalid memory address or nil pointer dereference").
  vm_compute. reflexivity.
Defined.

Lemma Export_thin_calls_witness :
  let ex := Examples.exporter "bundle.cnab" true Examples.app in
  ∃ t, trace (Examples.Export ["key"] ex (Examples.start Examples.home)).2
       = trace (Examples.start Examples.home) ++ t
       ∧ Forall Facts.is_tar t.
Proof.
  apply (Export_thin_calls Examples.cwd string (Examples.ring_of ["key"])
           Examples.key_by_name Examples.sign Examples.toy_tar
           (Examples.exporter "bundle.cnab" true Examples.app)
           (Examples.start Examples.home)).
  reflexivity.
Defined.

Lemma prepareArtifacts_result_witness :
  let bun' := Spec.with_digests Examples.app ["tempchecksum"] in
  Name bun' = Name Examples.app ∧ Version bun' = Version Examples.app
  ∧ (Images bun').*1 = (Images Examples.app).*1
  ∧ Spec.references bun' = Spec.references Examples.app
  ∧ Spec.digests bun'
    = replicate (length (Spec.references Examples.app)) "tempchecksum".
Proof.
  apply (prepareArtifacts_result
           (Examples.exporter "bundle.cnab" false Examples.app) Examples.app
           (Spec.with_digests Examples.app ["tempchecksum"]) ["work"] 0
           Examples.prepared
           (Packager.prepareArtifacts
              (Examples.exporter "bundle.cnab" false Examples.app)
              Examples.app ["work"] 0 Examples.prepared).2).
  vm_compute. reflexivity.
Defined.

Lemma Export_thick_signs_updated_bundle_witness :
  let ex := Examples.exporter "bundle.cnab" false Examples.app in
  let w := Examples.start Examples.home in
  ∃ t bun' members,
    trace (Examples.Export ["key"] ex w).2
    = trace w ++ t ++ [EvLoadKeyRing (Abs Examples.cwd "ring");
                       EvClearsign bun';
                       EvTar (Spec.staging Examples.cwd Examples.app) members]
    ∧ Forall Spec.docker_event t
    ∧ Name bun' = Name Examples.app ∧ Version bun' = Version Examples.app
    ∧ Spec.references bun' = Spec.references Examples.app
    ∧ Spec.digests bun'
      = replicate (length (Spec.references Examples.app)) "tempchecksum".
Proof.
  apply (Export_thick_signs_updated_bundle Examples.cwd string
           (Examples.ring_of ["key"]) Examples.key_by_name Examples.sign
           Examples.toy_tar
           (Examples.exporter "bundle.cnab" false Examples.app)
           (Examples.start Examples.home)
           (CreateNamed Examples.cwd "export.log"
              (Examples.start Examples.home)).2
           (Examples.Export ["key"]
              (Examples.exporter "bundle.cnab" false Examples.app)
              (Examples.start Examples.home)).2
           0 Examples.app).
  - reflexivity.
  - vm_compute. reflexivity.
  - reflexivity.
  - vm_compute. reflexivity.
Defined.

Lemma getReference_drops_scheme_witness :
  let getReference :=
    PullCmd.getReference string (string * string) (λ s, inr s) (λ _, true)
      (λ n tag, inr (n, tag)) (λ _, None) (λ n, n) (λ s, s) in
  getReference ("docker" +:+ "://" +:+ "example/app")
  = getReference "example/app".
Proof.
  apply (getReference_drops_scheme string (string * string) (λ s, inr s)
           (λ _, true) (λ n tag, inr (n, tag)) (λ _, None) (λ n, n)
           (λ s, s) "docker" "example/app"); reflexivity.
Defined.

Lemma getReference_first_separator_witness :
  PullCmd.getReference string (string * string)
    (λ s, inl (Errorf "invalid reference format")) (λ _, true)
    (λ n tag, inr (n, tag)) (λ _, None) (λ n, n) (λ s, s)
    ("docker" +:+ "://" +:+ "a://b")
  = Fail (Errorf ("a://b" +:+ " is not a valid bundle name: "
                  +:+ Error (Errorf "invalid reference format"))).
Proof.
  apply (getReference_first_separator string (string * string)
           (λ s, inl (Errorf "invalid reference format")) (λ _, true)
           (λ n tag, inr (n, tag)) (λ _, None) (λ n, n) (λ s, s)
           "docker" "a://b" (Errorf "invalid reference format"));
    reflexivity.
Defined.

Lemma getReference_panics_only_on_default_tag_witness :
  ∃ name ref e,
    (inr name : error + string) = inr ref ∧ true = true
    ∧ (inl (Errorf "invalid tag format") : error + string * string) = inl e
    ∧ "invalid tag format" = Error e.
Proof.
  apply (getReference_panics_only_on_default_tag string (string * string)
           (λ s, inr s) (λ _, true)
           (λ _ _, inl (Errorf "invalid tag format")) (λ _, None) (λ n, n)
           (λ s, s) "docker://example/app" "invalid tag format").
  reflexivity.
Defined.

Lemma Digest_returns_digest_of_saved_image_witness :
  let d := Digester.NewDigester Examples.docker "postgres:12" in
  let w := Examples.start Examples.home in
  let w' := (Digester.Digest (λ s, "sha256 of " +:+ s) d w).2 in
  ∃ s, save_of (Digester.Client d) (Digester.Image d) = inr s
       ∧ read_err s = None
       ∧ "sha256 of layers of postgres:12" = "sha256 of " +:+ data s
       ∧ trace w' = trace w ++ [EvImageSave (Digester.Image d) true;
                                EvFromReader (Digester.Image d);
                                EvClose (SavedImage (Digester.Image d))]
       ∧ fs w' = fs w.
Proof.
  apply (Digest_returns_digest_of_saved_image (λ s, "sha256 of " +:+ s)
           (Digester.NewDigester Examples.docker "postgres:12")
           (Examples.start Examples.home) _
           "sha256 of layers of postgres:12").
  vm_compute. reflexivity.
Defined.
